(** * File Examiner plugin: policy layer and the four read-only tools

    A shallow embedding of the configuration-aware tool module of the
    File Examiner plugin ([fileExaminerTools], the second module of
    src/unnamed/part_003): [validatePath], [validateExtension], the
    [read_file], [list_directory], [get_file_info] and [search_files]
    implementations, and the wildcard matcher built on [RegExp].

    Modelling choices.
    - Strings are Stdlib [string]s; each character is read as a UTF-16 code
      unit below 256 (Latin-1), which is where [toLowerCase] and the
      case-insensitive [RegExp] flag are written out exactly.
    - Paths follow Node's POSIX [path] module: a resolved path is kept as its
      list of segments and rendered as ["/" ++ segments joined by "/"].
    - The file system is a tree of directories, regular files and symbolic
      links; [stat] and [readdir] follow symbolic links on the way, the
      directory entries ([Dirent]) do not, as in Node.
    - A thrown [Error] caught by the tool's [try]/[catch] becomes [Err]. *)

From Stdlib Require Import String Ascii List ZArith Bool Lia.
Import ListNotations.

#[local] Set Warnings "-register-all".
Open Scope bool_scope.
Open Scope string_scope.
Open Scope list_scope.

(* ------------------------------------------------------------------ *)
(** ** Characters and strings *)

(** [String.prototype.toLowerCase] on code units below 256: A-Z and
    U+00C0..U+00DE except U+00D7 move up by 32. *)
Definition lower_char (c : ascii) : ascii :=
  let n := nat_of_ascii c in
  if (65 <=? n)%nat && (n <=? 90)%nat then ascii_of_nat (n + 32)%nat
  else if (192 <=? n)%nat && (n <=? 222)%nat && negb (n =? 215)%nat
  then ascii_of_nat (n + 32)%nat else c.

Fixpoint toLowerCase (s : string) : string :=
  match s with
  | EmptyString => EmptyString
  | String c s' => String (lower_char c) (toLowerCase s')
  end.

(** [String.prototype.startsWith]. *)
Fixpoint startsWith (s prefix : string) : bool :=
  match prefix, s with
  | EmptyString, _ => true
  | String p prefix', String c s' => Ascii.eqb p c && startsWith s' prefix'
  | String _ _, EmptyString => false
  end.

(** [Array.prototype.includes] on a list of strings. *)
Definition includes (xs : list string) (x : string) : bool :=
  existsb (String.eqb x) xs.

(* ------------------------------------------------------------------ *)
(** ** Paths (Node's POSIX [path] module) *)

Definition slash : ascii := "/"%char.

(** Split a path string on ["/"], keeping empty pieces. *)
Fixpoint split_aux (s cur : string) : list string :=
  match s with
  | EmptyString => [cur]
  | String c s' =>
      if Ascii.eqb c slash then cur :: split_aux s' EmptyString
      else split_aux s' (cur ++ String c EmptyString)%string
  end.

Definition split_path (s : string) : list string := split_aux s EmptyString.

(** [normalizeString] with [allowAboveRoot = false]: empty and ["."]
    segments vanish, [".."] drops the previous segment (nothing above the
    root). *)
Definition norm_step (acc : list string) (seg : string) : list string :=
  if String.eqb seg "" then acc
  else if String.eqb seg "." then acc
  else if String.eqb seg ".." then removelast acc
  else acc ++ [seg].

Definition normalize (base : list string) (segs : list string) : list string :=
  fold_left norm_step segs base.

Definition is_absolute (p : string) : bool :=
  match p with
  | String c _ => Ascii.eqb c slash
  | EmptyString => false
  end.

(** [path.resolve(p)] with [process.cwd()] given as its segments. *)
Definition resolve (cwd : list string) (p : string) : list string :=
  if is_absolute p then normalize [] (split_path p)
  else normalize cwd (split_path p).

Fixpoint join_segs (segs : list string) : string :=
  match segs with
  | [] => EmptyString
  | [s] => s
  | s :: rest => (s ++ "/" ++ join_segs rest)%string
  end.

(** The string form of a resolved path. *)
Definition render (segs : list string) : string :=
  ("/" ++ join_segs segs)%string.

(** [path.basename] and [path.dirname] of a resolved path. *)
Definition basename (segs : list string) : string := last segs EmptyString.
Definition dirname (segs : list string) : string := render (removelast segs).

(** Index of the last ["."] of a string. *)
Fixpoint last_dot_aux (s : string) (i : nat) (found : option nat) : option nat :=
  match s with
  | EmptyString => found
  | String c s' =>
      last_dot_aux s' (S i) (if Ascii.eqb c "."%char then Some i else found)
  end.

(** [path.extname] of one path segment: from the last dot on, unless there
    is no dot, the only dot is the first character, or the segment is
    [".."]. *)
Definition extname_seg (name : string) : string :=
  if String.eqb name ".." then EmptyString else
  match last_dot_aux name 0%nat None with
  | None | Some 0%nat => EmptyString
  | Some i => substring i (String.length name - i) name
  end.

Definition extname (segs : list string) : string := extname_seg (basename segs).

(* ------------------------------------------------------------------ *)
(** ** Errors and results *)

(** The kinds of [Error] the tools throw and catch into
    [{ success: false, error: message }]. *)
Inductive error :=
  | AccessDenied (restrictedPath : string)  (* "Access denied: ..." *)
  | FileTypeNotAllowed (ext : string)       (* "File type not allowed: ..." *)
  | CategoryDisabled                        (* "... files are disabled ..." *)
  | NotAFile                                (* "Path is not a file" *)
  | NotADirectory                           (* "Path is not a directory" *)
  | FileTooLarge (size max : Z)             (* "File too large: ..." *)
  | FsError                                 (* a rejected [fs] promise *)
  | RegexError.                             (* [new RegExp] threw *)

Inductive result (A : Type) :=
  | Ok (a : A)
  | Err (e : error).
Arguments Ok {A} a.
Arguments Err {A} e.

(* ------------------------------------------------------------------ *)
(** ** [validatePath] *)

(** The restricted-directory check: the first entry whose lowercase form
    is a string prefix of the lowercase resolved path. *)
Definition restricted_hit (restrictedPaths : list string) (np : list string)
  : option string :=
  find (fun r => startsWith (toLowerCase (render np)) (toLowerCase r))
       restrictedPaths.

Definition validatePath (cwd : list string) (restrictedPaths : list string)
  (filePath : string) : result (list string) :=
  let normalizedPath := resolve cwd filePath in
  match restricted_hit restrictedPaths normalizedPath with
  | Some r => Err (AccessDenied r)
  | None => Ok normalizedPath
  end.

(* ------------------------------------------------------------------ *)
(** ** The file system *)

(** A node of the file tree: a regular file (size in bytes, modification
    time, and its contents, [None] when the process may not read it, so
    that opening it fails with EACCES), a directory (whether [readdir] on
    it succeeds, and its entries in [readdir] order) or a symbolic link. *)
Inductive node :=
  | File (size : Z) (mtime : Z) (data : option string)
  | Dir (readable : bool) (entries : list (string * node))
  | Symlink (target : string).

Record env := mkEnv { cwd : list string; root : node }.

Fixpoint assoc (k : string) (es : list (string * node)) : option node :=
  match es with
  | [] => None
  | (k', n) :: es' => if String.eqb k k' then Some n else assoc k es'
  end.

(** Path lookup by the kernel, following symbolic links (relative targets
    are resolved against the link's directory) up to the kernel's limit of
    [MAXSYMLINKS] links per lookup. Returns the real path reached and the
    node found; [None] is a failed [stat]/[readdir] (ENOENT, ENOTDIR, and
    ELOOP once a lookup would follow one link more than the limit). Every
    directory is searchable: execute permission is not modelled. *)
Fixpoint walk (links : nat) (rt cur : node) (done rest : list string)
  {struct links} : option (list string * node) :=
  let fix go (cur : node) (done rest : list string) {struct rest}
    : option (list string * node) :=
    match cur with
    | Symlink t =>
        match links with
        | O => None
        | S l => walk l rt rt [] (resolve (removelast done) t ++ rest)
        end
    | _ =>
        match rest with
        | [] => Some (done, cur)
        | s :: rest' =>
            match cur with
            | Dir _ es =>
                match assoc s es with
                | Some n => go n (done ++ [s]) rest'
                | None => None
                end
            | _ => None
            end
        end
    end in
  go cur done rest.

(** Linux's [MAXSYMLINKS]. *)
Definition MAXSYMLINKS : nat := 40%nat.

(** [fs.stat(render p)]. *)
Definition stat (e : env) (p : list string) : option (list string * node) :=
  walk MAXSYMLINKS (root e) (root e) [] p.

(** [stats.size] and [stats.mtime]. Only files carry a modification time
    in this tree: a directory's is not modelled and reads as 0, and no
    property below depends on it. *)
Definition node_size (n : node) : Z :=
  match n with File s _ _ => s | Dir _ _ => 4096%Z | Symlink _ => 0%Z end.
Definition node_mtime (n : node) : Z :=
  match n with File _ m _ => m | _ => 0%Z end.
Definition is_file (n : node) : bool :=
  match n with File _ _ _ => true | _ => false end.
Definition is_dir (n : node) : bool :=
  match n with Dir _ _ => true | _ => false end.

(* ------------------------------------------------------------------ *)
(** ** Configuration ([getConfig]) *)

Record config := mkConfig {
  allowedExtensions : list string;
  restrictedPaths : list string;
  maxFileSize : Z;
  enableImageFiles : bool;
  enableDotNetFiles : bool;
  enableBinaryFiles : bool }.

Definition imageExtensions : list string :=
  [".jpg"; ".jpeg"; ".png"; ".gif"; ".bmp"; ".tiff"; ".tif"; ".webp"; ".svg";
   ".ico"; ".heic"; ".heif"; ".raw"; ".cr2"; ".nef"; ".arw"; ".dng"].
Definition dotnetExtensions : list string :=
  [".cs"; ".vb"; ".fs"; ".csproj"; ".vbproj"; ".fsproj"; ".sln"; ".razor";
   ".cshtml"; ".vbhtml"; ".aspx"; ".ascx"; ".asmx"].
Definition binaryExtensions : list string :=
  [".dll"; ".exe"; ".msi"; ".nupkg"].

(** [validateExtension(filePath, allowedExtensions, config)]. *)
Definition validateExtension (cfg : config) (filePath : list string)
  : result unit :=
  let ext := toLowerCase (extname filePath) in
  if negb (includes (allowedExtensions cfg) ext) then Err (FileTypeNotAllowed ext)
  else if includes imageExtensions ext && negb (enableImageFiles cfg)
  then Err CategoryDisabled
  else if includes dotnetExtensions ext && negb (enableDotNetFiles cfg)
  then Err CategoryDisabled
  else if includes binaryExtensions ext && negb (enableBinaryFiles cfg)
  then Err CategoryDisabled
  else Ok tt.

(** The encodings with which [fs.readFile(path, encoding)] hands back the
    file: the empty string (no decoding: a [Buffer] comes back) and the
    names [Buffer.isEncoding] accepts, in any case. Any other name fails:
    [assertEncoding] throws before the file is opened, or, for the value
    ["buffer"] that it lets through, [buffer.toString("buffer")] throws
    after the read. *)
Definition node_encodings : list string :=
  ["utf8"; "utf-8"; "ucs2"; "ucs-2"; "utf16le"; "utf-16le"; "latin1";
   "binary"; "base64"; "base64url"; "hex"; "ascii"].
Definition encoding_ok (enc : string) : bool :=
  String.eqb enc "" || includes node_encodings (toLowerCase enc).

(** The extensions [read_file] answers with metadata only. *)
Definition readBinaryExtensions : list string :=
  [".jpg"; ".jpeg"; ".png"; ".gif"; ".bmp"; ".tiff"; ".tif"; ".webp"; ".ico";
   ".heic"; ".heif"; ".raw"; ".cr2"; ".nef"; ".arw"; ".dng"; ".dll"; ".exe";
   ".msi"; ".nupkg"].

Definition binary_placeholder : string :=
  "[Binary file - content not readable as text]".

(** The object returned by a successful [read_file]; [sizeFormatted] is a
    floating-point rendering of [size] and is left out. The text content
    is the file's data (decoding by [encoding] is not modelled). *)
Record read_data := mkReadData {
  rd_isBinary : bool;
  rd_content : string;
  rd_path : string;
  rd_size : Z;
  rd_mimeType : string;
  rd_lastModified : Z;
  rd_encoding : option string;
  rd_fileType : option string }.

Section Tools.

(** The [mime-types] table, from a lowercase extension without its dot to
    a MIME type. *)
Variable types : string -> option string.

(** [mimeTypes.lookup(s)]: the extension of ["x." + s], lowercased, without
    its dot. *)
Definition mime_of_ext (e : string) : option string :=
  match toLowerCase e with
  | String _ (String _ _ as rest) => types rest
  | _ => None
  end.
Definition lookup_name (name : string) : option string :=
  mime_of_ext (extname_seg ("x." ++ name)).
Definition lookup_path (p : list string) : option string :=
  match p with
  | [] => None
  | _ => mime_of_ext (extname p)
  end.
Definition or_unknown (m : option string) : string :=
  match m with Some t => t | None => "unknown" end.

(** [readFileTool.implementation({ file_path, encoding })]. *)
Definition read_file (e : env) (cfg : config) (file_path encoding : string)
  : result read_data :=
  match validatePath (cwd e) (restrictedPaths cfg) file_path with
  | Err er => Err er
  | Ok validatedPath =>
  match validateExtension cfg validatedPath with
  | Err er => Err er
  | Ok _ =>
  match stat e validatedPath with
  | None => Err FsError
  | Some (_, n) =>
  match n with
  | File size mtime data =>
      if (size >? maxFileSize cfg)%Z then Err (FileTooLarge size (maxFileSize cfg))
      else
        let ext := toLowerCase (extname validatedPath) in
        let mimeType := or_unknown (lookup_path validatedPath) in
        let isBinaryFile :=
          includes readBinaryExtensions ext
          || startsWith mimeType "image/" || startsWith mimeType "application/" in
        if isBinaryFile then
          Ok (mkReadData true binary_placeholder (render validatedPath) size
                mimeType mtime None (Some ext))
        else if encoding_ok encoding then
          match data with
          | Some content =>
              Ok (mkReadData false content (render validatedPath) size mimeType
                    mtime (Some encoding) None)
          | None => Err FsError
          end
        else Err FsError
  | _ => Err NotAFile
  end end end end.


(** One element of [items] in [list_directory]; [sizeFormatted] left out. *)
Record list_item := mkListItem {
  it_name : string;
  it_path : string;
  it_type : string;
  it_size : Z;
  it_lastModified : Z;
  it_extension : option string;
  it_mimeType : option string }.

(** The [for (const entry of entries)] loop of [list_directory]: hidden
    entries are skipped, every other entry is [fs.stat]-ed (a failure
    rejects the whole call). The entry's type comes from the [Dirent],
    its size and time from the followed [stat]. *)
Fixpoint list_entries (e : env) (validatedPath : list string)
  (include_hidden : bool) (entries : list (string * node))
  : result (list list_item) :=
  match entries with
  | [] => Ok []
  | (name, d) :: rest =>
      if negb include_hidden && startsWith name "." then
        list_entries e validatedPath include_hidden rest
      else
        let itemPath := validatedPath ++ [name] in
        match stat e itemPath with
        | None => Err FsError
        | Some (_, itemStats) =>
            match list_entries e validatedPath include_hidden rest with
            | Err er => Err er
            | Ok items =>
                Ok (mkListItem name (render itemPath)
                      (if is_dir d then "directory" else "file")
                      (node_size itemStats) (node_mtime itemStats)
                      (if is_file d then Some (extname_seg name) else None)
                      (if is_file d then Some (or_unknown (lookup_name name))
                       else None) :: items)
            end
        end
  end.

(** [listDirectoryTool.implementation({ dir_path, include_hidden })]. *)
Definition list_directory (e : env) (cfg : config) (dir_path : string)
  (include_hidden : bool) : result (list list_item) :=
  match validatePath (cwd e) (restrictedPaths cfg) dir_path with
  | Err er => Err er
  | Ok validatedPath =>
  match stat e validatedPath with
  | None => Err FsError
  | Some (_, n) =>
  match n with
  | Dir true entries => list_entries e validatedPath include_hidden entries
  | Dir false _ => Err FsError
  | _ => Err NotADirectory
  end end end.

(** The object returned by [get_file_info]; of [additionalInfo] only
    [fileCategory] is kept, timestamps other than [mtime] are left out. *)
Record file_info := mkFileInfo {
  fi_path : string;
  fi_name : string;
  fi_directory : string;
  fi_extension : string;
  fi_type : string;
  fi_size : Z;
  fi_lastModified : Z;
  fi_mimeType : option string;
  fi_readable : bool;
  fi_writable : bool;
  fi_fileCategory : option string }.

Definition file_category (ext : string) : option string :=
  if includes [".dll"; ".exe"; ".msi"] ext then Some "Binary/Executable"
  else if includes [".jpg"; ".jpeg"; ".png"; ".gif"; ".bmp"; ".tiff"; ".tif";
                    ".webp"; ".svg"; ".ico"] ext then Some "Image File"
  else if includes [".cs"; ".vb"; ".fs"; ".csproj"; ".vbproj"; ".fsproj";
                    ".sln"; ".config"] ext then Some ".NET Development File"
  else None.

(** [getFileInfoTool.implementation({ file_path })]: no extension gate. *)
Definition get_file_info (e : env) (cfg : config) (file_path : string)
  : result file_info :=
  match validatePath (cwd e) (restrictedPaths cfg) file_path with
  | Err er => Err er
  | Ok validatedPath =>
  match stat e validatedPath with
  | None => Err FsError
  | Some (_, n) =>
      let ext := toLowerCase (extname validatedPath) in
      Ok (mkFileInfo (render validatedPath) (basename validatedPath)
            (dirname validatedPath) ext
            (if is_file n then "file" else if is_dir n then "directory" else "other")
            (node_size n) (node_mtime n)
            (if is_file n then Some (or_unknown (lookup_path validatedPath)) else None)
            true false
            (if is_file n then file_category ext else None))
  end end.

(** One element of [results] in [search_files]. *)
Record search_hit := mkSearchHit {
  sh_name : string;
  sh_path : string;
  sh_directory : string;
  sh_size : Z;
  sh_lastModified : Z;
  sh_extension : string;
  sh_mimeType : string }.

Section Search.

(** [matchesPattern(entry.name, pattern)]: [Some b] is the boolean
    returned, [None] is the exception thrown by [new RegExp]. *)
Variable matches : string -> option bool.
Variable recursive : bool.

(** [searchInDirectory(dirPath, depth)]. The shared [results] array is
    threaded as [acc]; the second component is the error the call throws,
    if any (the pushes made before it stay in [acc]). A recursive call
    sits in [try { } catch (e) { }], so its error is dropped. *)
Fixpoint searchInDirectory (depth : nat) (dirPath : list string) (n : node)
  (acc : list search_hit) {struct n} : list search_hit * option error :=
  if (10 <? depth)%nat then (acc, None) else
  match n with
  | Dir true entries =>
      (fix loop (es : list (string * node)) (acc : list search_hit)
         : list search_hit * option error :=
         match es with
         | [] => (acc, None)
         | (name, d) :: es' =>
             let entryPath := dirPath ++ [name] in
             match d with
             | File size mtime _ =>
                 match matches name with
                 | None => (acc, Some RegexError)
                 | Some false => loop es' acc
                 | Some true =>
                     loop es' (acc ++ [mkSearchHit name (render entryPath)
                                         (dirname entryPath) size mtime
                                         (extname_seg name)
                                         (or_unknown (lookup_path entryPath))])
                 end
             | Dir _ _ =>
                 if recursive then
                   loop es' (fst (searchInDirectory (S depth) entryPath d acc))
                 else loop es' acc
             | Symlink _ => loop es' acc
             end
         end) entries acc
  | _ => (acc, Some FsError)
  end.

End Search.

(** [searchFilesTool.implementation({ search_path, pattern, recursive })]
    for a given outcome of the matcher. *)
Definition search_files_with (matches : string -> option bool)
  (recursive : bool) (e : env) (cfg : config) (search_path : string)
  : result (list search_hit) :=
  match validatePath (cwd e) (restrictedPaths cfg) search_path with
  | Err er => Err er
  | Ok validatedPath =>
  match stat e validatedPath with
  | None => Err FsError
  | Some (_, n) =>
      match searchInDirectory matches recursive 0 validatedPath n [] with
      | (results, None) => Ok results
      | (_, Some er) => Err er
      end
  end end.

End Tools.

(* ------------------------------------------------------------------ *)
(** ** [matchesPattern] and the [RegExp] it builds *)

(** [s.replace(/c/g, r)] for a one-character [c]. *)
Fixpoint replace_all (c : ascii) (r s : string) : string :=
  match s with
  | EmptyString => EmptyString
  | String d s' =>
      if Ascii.eqb c d then (r ++ replace_all c r s')%string
      else String d (replace_all c r s')
  end.

(** The source text given to [new RegExp(..., "i")]. *)
Definition regex_source (pattern : string) : string :=
  ("^" ++ replace_all "?"%char "." (replace_all "*"%char ".*" pattern) ++ "$")%string.

Module Regex.

Local Open Scope nat_scope.

(** The fragment of JavaScript regular expressions the sources above can
    contain without groups, classes, braces or other quantifiers: literal
    characters, [.], identity escapes [\c] of a non-alphanumeric [c], the
    quantifier [*], the leading [^] and an optional trailing [$]. *)
Inductive atom := Lit (c : ascii) | AnyChar.
Inductive piece := One (a : atom) | Many (a : atom).

Definition is_alnum (c : ascii) : bool :=
  let n := nat_of_ascii c in
  ((48 <=? n) && (n <=? 57)) || ((65 <=? n) && (n <=? 90))
  || ((97 <=? n) && (n <=? 122)).

Definition is_syntax (c : ascii) : bool :=
  existsb (Ascii.eqb c)
    ["("; ")"; "["; "]"; "{"; "}"; "|"; "+"; "?"; "*"; "^"; "$"]%char.

(** Parse what follows the leading [^]: the pieces and whether the source
    ends with the [$] anchor. [None]: the source is outside the fragment. *)
Fixpoint parse_terms (s : string) : option (list piece * bool) :=
  match s with
  | EmptyString => Some ([], false)
  | String c s' =>
      if Ascii.eqb c "$"%char then
        match s' with EmptyString => Some ([], true) | _ => None end
      else if Ascii.eqb c "\"%char then
        match s' with
        | EmptyString => None
        | String d s'' =>
            if is_alnum d then None else
            match s'' with
            | String q s3 =>
                if Ascii.eqb q "*"%char then
                  option_map (fun '(ps, a) => (Many (Lit d) :: ps, a)) (parse_terms s3)
                else option_map (fun '(ps, a) => (One (Lit d) :: ps, a)) (parse_terms s'')
            | EmptyString => Some ([One (Lit d)], false)
            end
        end
      else if is_syntax c then None
      else
        let a := if Ascii.eqb c "."%char then AnyChar else Lit c in
        match s' with
        | String q s3 =>
            if Ascii.eqb q "*"%char then
              option_map (fun '(ps, an) => (Many a :: ps, an)) (parse_terms s3)
            else option_map (fun '(ps, an) => (One a :: ps, an)) (parse_terms s')
        | EmptyString => Some ([One a], false)
        end
  end.

Definition parse (src : string) : option (list piece * bool) :=
  match src with
  | String c s => if Ascii.eqb c "^"%char then parse_terms s else None
  | EmptyString => None
  end.

(** Canonicalize of the [i] flag (non-Unicode mode) on code units below
    256: a-z and U+00E0..U+00FE except U+00F7 move down by 32. *)
Definition canon (c : ascii) : ascii :=
  let n := nat_of_ascii c in
  if (97 <=? n) && (n <=? 122) then ascii_of_nat (n - 32)
  else if (224 <=? n) && (n <=? 254) && negb (n =? 247)
  then ascii_of_nat (n - 32) else c.

(** [.] matches every character but a line terminator (LF, CR). *)
Definition atom_ok (a : atom) (c : ascii) : bool :=
  match a with
  | Lit d => Ascii.eqb (canon d) (canon c)
  | AnyChar => negb (Ascii.eqb c "010"%char) && negb (Ascii.eqb c "013"%char)
  end.

(** [regex.test(s)] for [^ ps] (followed by [$] when [anchored]): the
    leading [^] pins the match to position 0. *)
Fixpoint rmatch (ps : list piece) (anchored : bool) (s : string) : bool :=
  match ps with
  | [] => if anchored then String.eqb s "" else true
  | One a :: ps' =>
      match s with
      | String c s' => atom_ok a c && rmatch ps' anchored s'
      | EmptyString => false
      end
  | Many a :: ps' =>
      (fix star (s : string) : bool :=
         rmatch ps' anchored s
         || match s with
            | String c s' => atom_ok a c && star s'
            | EmptyString => false
            end) s
  end.

End Regex.

(** [matchesPattern(filename, pattern)]: [None] when the source lies
    outside the modelled fragment. *)
Definition matchesPattern (filename pattern : string) : option bool :=
  match Regex.parse (regex_source pattern) with
  | Some (ps, anchored) => Some (Regex.rmatch ps anchored filename)
  | None => None
  end.

(** The spec's reading of a wildcard pattern (refinement reference, not
    the code): [*] any run of characters, [?] exactly one character,
    every other character itself up to case, the whole name. *)
Fixpoint glob_spec (p s : string) : bool :=
  match p with
  | EmptyString => String.eqb s ""
  | String c p' =>
      if Ascii.eqb c "*"%char then
        (fix star (s : string) : bool :=
           glob_spec p' s
           || match s with String _ s' => star s' | EmptyString => false end) s
      else if Ascii.eqb c "?"%char then
        match s with String _ s' => glob_spec p' s' | EmptyString => false end
      else
        match s with
        | String d s' => Ascii.eqb (Regex.canon c) (Regex.canon d) && glob_spec p' s'
        | EmptyString => false
        end
  end.

(** Some entries of the [mime-db] table behind [mime-types], used for
    concrete runs. *)
Definition mime_db (ext : string) : option string :=
  if String.eqb ext "txt" then Some "text/plain"
  else if String.eqb ext "md" then Some "text/markdown"
  else if String.eqb ext "csv" then Some "text/csv"
  else if String.eqb ext "html" then Some "text/html"
  else if String.eqb ext "css" then Some "text/css"
  else if String.eqb ext "json" then Some "application/json"
  else if String.eqb ext "xml" then Some "application/xml"
  else if String.eqb ext "png" then Some "image/png"
  else if String.eqb ext "jpg" then Some "image/jpeg"
  else if String.eqb ext "jpeg" then Some "image/jpeg"
  else if String.eqb ext "bin" then Some "application/octet-stream"
  else if String.eqb ext "exe" then Some "application/x-msdos-program"
  else if String.eqb ext "dll" then Some "application/x-msdownload"
  else None.

(** [search_files] with the matcher built by [matchesPattern], for
    patterns whose source lies in the modelled fragment (the outcome
    [None] of the others, which are not modelled, is reported as the
    error of a throwing [RegExp]). *)
Definition search_files (types : string -> option string) (e : env)
  (cfg : config) (search_path pattern : string) (recursive : bool)
  : result (list search_hit) :=
  search_files_with types
    (fun name => matchesPattern name pattern) recursive e cfg search_path.

(* ================================================================== *)
(** * Properties *)

(* ------------------------------------------------------------------ *)
(** ** String and path lemmas *)

Lemma str_app_assoc (a b c : string) :
  (a ++ (b ++ c))%string = ((a ++ b) ++ c)%string.
Proof. induction a as [|x a IH]; simpl; [reflexivity | now rewrite IH]. Qed.

Lemma str_app_nil_r (a : string) : (a ++ "")%string = a.
Proof. induction a as [|x a IH]; simpl; [reflexivity | now rewrite IH]. Qed.

Lemma toLowerCase_app (s1 s2 : string) :
  toLowerCase (s1 ++ s2)%string = (toLowerCase s1 ++ toLowerCase s2)%string.
Proof. induction s1 as [|c s1 IH]; simpl; [reflexivity | now rewrite IH]. Qed.

Lemma startsWith_app (s1 s2 : string) : startsWith (s1 ++ s2)%string s1 = true.
Proof.
  induction s1 as [|c s1 IH]; simpl; [now destruct s2|].
  now rewrite Ascii.eqb_refl, IH.
Qed.

Lemma join_segs_app (r q : list string) :
  r <> [] -> q <> [] ->
  join_segs (r ++ q) = (join_segs r ++ "/" ++ join_segs q)%string.
Proof.
  intros Hr Hq. induction r as [|a r IH]; [congruence|].
  destruct r as [|b r].
  - simpl. destruct q; [congruence|reflexivity].
  - change ((a :: b :: r) ++ q) with (a :: (b :: r ++ q)).
    change (join_segs (a :: b :: r ++ q)) with (a ++ "/" ++ join_segs (b :: r ++ q))%string.
    change (join_segs (a :: b :: r)) with (a ++ "/" ++ join_segs (b :: r))%string.
    change (b :: r ++ q) with ((b :: r) ++ q).
    rewrite (IH ltac:(discriminate)).
    now rewrite !str_app_assoc.
Qed.

(** The rendered form of a path begins with the rendered form of each of
    its segment prefixes. *)
Lemma render_prefix (r q : list string) :
  exists suffix, render (r ++ q) = (render r ++ suffix)%string.
Proof.
  destruct r as [|a r].
  - exists (join_segs q). reflexivity.
  - destruct q as [|b q].
    + exists ""%string. now rewrite app_nil_r, str_app_nil_r.
    + exists ("/" ++ join_segs (b :: q))%string. unfold render.
      rewrite join_segs_app by discriminate.
      now rewrite !str_app_assoc.
Qed.

(* ------------------------------------------------------------------ *)
(** ** [validatePath] *)

(** C1 (as the code has it). [validatePath] rejects with [AccessDenied]
    exactly when some restricted entry, lowercased, is a raw string prefix
    of the lowercased [path.resolve] form of the input; every path equal to
    or nested (segment-wise) under an entry is among them, but so is a
    sibling such as [/a/bc] under [/a/b]. *)
Theorem validatePath_rejects_raw_prefix :
  (forall cwd rs p,
      (exists r, validatePath cwd rs p = Err (AccessDenied r)) <->
      (exists r, In r rs /\
                 startsWith (toLowerCase (render (resolve cwd p))) (toLowerCase r) = true))
  /\ (forall cwd rs p rsegs q,
      In (render rsegs) rs -> resolve cwd p = rsegs ++ q ->
      exists r, validatePath cwd rs p = Err (AccessDenied r)).
Proof.
  assert (Hiff : forall cwd rs p,
      (exists r, validatePath cwd rs p = Err (AccessDenied r)) <->
      (exists r, In r rs /\
                 startsWith (toLowerCase (render (resolve cwd p))) (toLowerCase r) = true)).
  { intros cwd rs p. unfold validatePath, restricted_hit. split.
    - intros [r Hr].
      destruct (find _ rs) as [r'|] eqn:Hf; [|discriminate].
      apply find_some in Hf. exists r'. exact Hf.
    - intros [r [Hin Hs]].
      destruct (find _ rs) as [r'|] eqn:Hf.
      + now exists r'.
      + exfalso. pose proof (find_none _ _ Hf r Hin) as Hn. cbv beta in Hn.
        rewrite Hs in Hn. discriminate. }
  split; [exact Hiff|].
  intros cwd rs p rsegs q Hin Hres. apply Hiff. exists (render rsegs). split; [exact Hin|].
  rewrite Hres. destruct (render_prefix rsegs q) as [suf ->].
  rewrite toLowerCase_app. apply startsWith_app.
Qed.

Lemma validatePath_rejects_raw_prefix_witness :
  resolve [] "/system/../system/x.txt" = ["system"] ++ ["x.txt"] /\
  (exists r, validatePath [] ["/system"] "/system/../system/x.txt"
             = Err (AccessDenied r)).
Proof.
  split; [reflexivity|].
  apply (proj2 validatePath_rejects_raw_prefix [] ["/system"]
           "/system/../system/x.txt" ["system"] ["x.txt"]).
  - simpl. left. reflexivity.
  - reflexivity.
Defined.

(** C1 fails in the code: [/a/bc] is not [/a/b] nor nested under it on
    segment boundaries, yet [validatePath], which means to refuse paths
    inside restricted directories, rejects it through the raw
    [startsWith]. *)
Lemma validatePath_rejects_sibling :
  resolve [] "/a/bc" = ["a"; "bc"] /\
  validatePath [] ["/a/b"] "/a/bc" = Err (AccessDenied "/a/b").
Proof. split; reflexivity. Qed.

(** Every path equal to or below a restricted entry (raw prefix,
    case-insensitive) is refused by [validatePath]. *)
Lemma validatePath_denied (cwd : list string) (rs : list string) (p r : string) :
  In r rs ->
  startsWith (toLowerCase (render (resolve cwd p))) (toLowerCase r) = true ->
  exists r', validatePath cwd rs p = Err (AccessDenied r').
Proof. intros Hin Hs. apply (proj1 validatePath_rejects_raw_prefix). eauto. Qed.

(* ------------------------------------------------------------------ *)
(** ** Every tool goes through [validatePath] first *)

(** A configuration for concrete runs: [.txt] and [.json] allowed,
    [/system] restricted, 100 bytes at most. *)
Definition demo_config : config :=
  mkConfig [".txt"; ".json"] ["/system"] 100 true true true.

(** C2 (as the code has it). For every input [p] whose [path.resolve] form
    (absolute, [.] and [..] segments and trailing separators removed,
    symbolic links left as they are) has, case-insensitively, a restricted
    entry as a raw string prefix, all four tools answer [AccessDenied]. *)
Theorem restricted_input_denied_by_all_tools :
  forall types matches recursive e cfg p enc include_hidden r,
  In r (restrictedPaths cfg) ->
  startsWith (toLowerCase (render (resolve (cwd e) p))) (toLowerCase r) = true ->
  (exists r', read_file types e cfg p enc = Err (AccessDenied r')) /\
  (exists r', list_directory types e cfg p include_hidden = Err (AccessDenied r')) /\
  (exists r', get_file_info types e cfg p = Err (AccessDenied r')) /\
  (exists r', search_files_with types matches recursive e cfg p
              = Err (AccessDenied r')).
Proof.
  intros types matches recursive e cfg p enc include_hidden r Hin Hs.
  destruct (validatePath_denied (cwd e) _ p r Hin Hs) as [r' Hv].
  unfold read_file, list_directory, get_file_info, search_files_with.
  rewrite Hv. repeat split; eexists; reflexivity.
Qed.

Lemma restricted_input_denied_by_all_tools_witness :
  In "/system" (restrictedPaths demo_config) /\
  startsWith (toLowerCase (render (resolve [] "/system/../system/x.txt")))
             (toLowerCase "/system") = true /\
  exists r', read_file mime_db (mkEnv [] (Dir true [])) demo_config
               "/system/../system/x.txt" "utf8" = Err (AccessDenied r').
Proof.
  split; [simpl; left; reflexivity|]. split; [reflexivity|].
  exact (proj1 (restricted_input_denied_by_all_tools mime_db
    (fun _ => Some true) true (mkEnv [] (Dir true [])) demo_config
    "/system/../system/x.txt" "utf8" false "/system"
    ltac:(simpl; left; reflexivity) eq_refl)).
Defined.

(** A tree where [/link] is a symbolic link to the restricted [/system]. *)
Definition link_env : env :=
  mkEnv [] (Dir true [("link", Symlink "/system");
                      ("system", Dir true [("x.txt", File 6 0 (Some "secret"))])]).

(** C2 fails as stated: [/link/x.txt] has canonical form [/system/x.txt]
    (the link resolved), yet [read_file] returns its content. *)
Lemma symlink_into_restricted_read :
  option_map fst (stat link_env (resolve [] "/link/x.txt")) = Some ["system"; "x.txt"] /\
  read_file mime_db link_env demo_config "/link/x.txt" "utf8"
  = Ok (mkReadData false "secret" "/link/x.txt" 6 "text/plain" 0 (Some "utf8") None).
Proof. split; vm_compute; reflexivity. Qed.

(* ------------------------------------------------------------------ *)
(** ** [read_file] on binary files does not depend on their bytes *)

(** The same tree with every file's contents dropped. *)
Fixpoint erase_node (n : node) : node :=
  match n with
  | File s m data => File s m (option_map (fun _ => "") data)
  | Dir r es => Dir r (map (fun '(k, d) => (k, erase_node d)) es)
  | Symlink t => Symlink t
  end.

Definition erase_env (e : env) : env := mkEnv (cwd e) (erase_node (root e)).

Lemma assoc_erase (k : string) (es : list (string * node)) :
  assoc k (map (fun '(k', d) => (k', erase_node d)) es)
  = option_map erase_node (assoc k es).
Proof.
  induction es as [|[k' d] es IH]; simpl; [reflexivity|].
  destruct (String.eqb k k'); [reflexivity | exact IH].
Qed.

Lemma walk_erase (links : nat) (rt : node) :
  forall cur done rest,
  walk links (erase_node rt) (erase_node cur) done rest
  = option_map (fun '(d, n) => (d, erase_node n)) (walk links rt cur done rest).
Proof.
  induction links as [|l IH]; intros cur done rest; revert cur done;
    induction rest as [|x rest' IHr]; intros cur done;
    destruct cur as [s m data|r es|t]; try reflexivity; simpl.
  - rewrite assoc_erase. destruct (assoc x es); [apply IHr | reflexivity].
  - apply IH.
  - rewrite assoc_erase. destruct (assoc x es); [apply IHr | reflexivity].
  - apply IH.
Qed.

Lemma stat_erase (e : env) (p : list string) :
  stat (erase_env e) p = option_map (fun '(d, n) => (d, erase_node n)) (stat e p).
Proof. unfold stat. apply walk_erase. Qed.

(** A text answer with its content dropped. *)
Definition blank_content (d : read_data) : read_data :=
  mkReadData (rd_isBinary d) "" (rd_path d) (rd_size d) (rd_mimeType d)
    (rd_lastModified d) (rd_encoding d) (rd_fileType d).

Lemma read_file_erase types (e : env) cfg p enc :
  read_file types (erase_env e) cfg p enc
  = match read_file types e cfg p enc with
    | Ok d => Ok (if rd_isBinary d then d else blank_content d)
    | Err er => Err er
    end.
Proof.
  unfold read_file. change (cwd (erase_env e)) with (cwd e).
  destruct (validatePath _ _ p) as [vp|er]; [|reflexivity].
  destruct (validateExtension cfg vp) as [[]|er]; [|reflexivity].
  rewrite stat_erase. destruct (stat e vp) as [[rp n]|]; [|reflexivity].
  cbn [option_map]. destruct n as [size mtime data|r es|t]; cbn [erase_node];
    try reflexivity.
  destruct (size >? maxFileSize cfg)%Z; [reflexivity|].
  destruct (includes readBinaryExtensions _ || _ || _); [reflexivity|].
  destruct (encoding_ok enc); [|reflexivity].
  destruct data; reflexivity.
Qed.

Lemma read_file_binary_content types e cfg p enc d :
  read_file types e cfg p enc = Ok d -> rd_isBinary d = true ->
  rd_content d = binary_placeholder.
Proof.
  unfold read_file.
  destruct (validatePath _ _ p) as [vp|er]; [|discriminate].
  destruct (validateExtension cfg vp) as [[]|er]; [|discriminate].
  destruct (stat e vp) as [[rp n]|]; [|discriminate].
  destruct n as [size mtime data|r es|t]; try discriminate.
  destruct (size >? maxFileSize cfg)%Z; [discriminate|].
  destruct (includes readBinaryExtensions _ || _ || _).
  - intros H _. now inversion H.
  - destruct (encoding_ok enc); [|discriminate].
    destruct data; [|discriminate]. intros H. inversion H. discriminate.
Qed.

(** C3. Whenever [read_file] answers a file as binary, its content is the
    fixed placeholder, and any tree that differs only in the bytes of its
    files gets exactly the same answer. *)
Theorem binary_read_independent_of_bytes :
  forall types e1 e2 cfg p enc d,
  erase_env e1 = erase_env e2 ->
  read_file types e1 cfg p enc = Ok d -> rd_isBinary d = true ->
  rd_content d = binary_placeholder /\ read_file types e2 cfg p enc = Ok d.
Proof.
  intros types e1 e2 cfg p enc d Herase H1 Hb.
  split; [exact (read_file_binary_content _ _ _ _ _ _ H1 Hb)|].
  pose proof (read_file_erase types e1 cfg p enc) as E1.
  pose proof (read_file_erase types e2 cfg p enc) as E2.
  rewrite H1, Hb, Herase in E1. rewrite E1 in E2.
  destruct (read_file types e2 cfg p enc) as [d2|er]; [|discriminate].
  destruct (rd_isBinary d2) eqn:Hb2; inversion E2; subst; [reflexivity|].
  simpl in Hb. congruence.
Qed.

Definition png_env (bytes : string) : env :=
  mkEnv [] (Dir true [("pic.png", File 4 7 (Some bytes))]).
Definition image_config : config :=
  mkConfig [".png"] [] 100 true true true.

Lemma binary_read_independent_of_bytes_witness :
  erase_env (png_env "PNG1") = erase_env (png_env "ABCD") /\
  read_file mime_db (png_env "PNG1") image_config "/pic.png" "utf8"
  = Ok (mkReadData true binary_placeholder "/pic.png" 4 "image/png" 7 None (Some ".png")) /\
  rd_content (mkReadData true binary_placeholder "/pic.png" 4 "image/png" 7 None (Some ".png"))
  = binary_placeholder /\
  read_file mime_db (png_env "ABCD") image_config "/pic.png" "utf8"
  = Ok (mkReadData true binary_placeholder "/pic.png" 4 "image/png" 7 None (Some ".png")).
Proof.
  assert (He : erase_env (png_env "PNG1") = erase_env (png_env "ABCD")) by reflexivity.
  assert (H1 : read_file mime_db (png_env "PNG1") image_config "/pic.png" "utf8"
    = Ok (mkReadData true binary_placeholder "/pic.png" 4 "image/png" 7 None (Some ".png")))
    by (vm_compute; reflexivity).
  destruct (binary_read_independent_of_bytes mime_db _ _ _ _ _ _ He H1 eq_refl) as [Hc H2].
  exact (conj He (conj H1 (conj Hc H2))).
Defined.

(* ------------------------------------------------------------------ *)
(** ** The binary test of [read_file] *)

(** C4. A successful [read_file] answers a file as binary exactly when its
    lowercase extension is in the hard-coded list or its MIME type starts
    with [image/] or [application/]; so every readable allowlisted file of
    a MIME type [application/...] (a [.json] file among them) gets the
    placeholder instead of its text. *)
Theorem application_mime_read_as_placeholder :
  (forall types e cfg p enc vp d,
    validatePath (cwd e) (restrictedPaths cfg) p = Ok vp ->
    read_file types e cfg p enc = Ok d ->
    rd_isBinary d = includes readBinaryExtensions (toLowerCase (extname vp))
                    || startsWith (rd_mimeType d) "image/"
                    || startsWith (rd_mimeType d) "application/") /\
  (forall types e cfg p enc vp rp size mtime data,
    validatePath (cwd e) (restrictedPaths cfg) p = Ok vp ->
    validateExtension cfg vp = Ok tt ->
    stat e vp = Some (rp, File size mtime data) ->
    (size <= maxFileSize cfg)%Z ->
    startsWith (or_unknown (lookup_path types vp)) "application/" = true ->
    exists d, read_file types e cfg p enc = Ok d /\ rd_isBinary d = true /\
              rd_content d = binary_placeholder).
Proof.
  split.
  - intros types e cfg p enc vp d Hv. unfold read_file. rewrite Hv.
    destruct (validateExtension cfg vp) as [[]|er]; [|discriminate].
    destruct (stat e vp) as [[rp n]|]; [|discriminate].
    destruct n as [size mtime data|r es|t]; try discriminate.
    destruct (size >? maxFileSize cfg)%Z; [discriminate|].
    destruct (includes readBinaryExtensions _ || _ || _) eqn:Hb.
    + intros H. inversion H; subst. simpl. symmetry. exact Hb.
    + destruct (encoding_ok enc); [|discriminate].
      destruct data; [|discriminate].
      intros H. inversion H; subst. simpl. symmetry. exact Hb.
  - intros types e cfg p enc vp rp size mtime data Hv He Hs Hsz Happ.
    unfold read_file. rewrite Hv, He, Hs.
    replace (size >? maxFileSize cfg)%Z with false
      by (symmetry; rewrite Z.gtb_ltb; apply Z.ltb_ge; lia).
    rewrite Happ, !orb_true_r.
    eexists. split; [reflexivity|]. split; reflexivity.
Qed.

Definition json_env : env :=
  mkEnv [] (Dir true [("data.json", File 5 3 (Some "[1,2]"))]).

Lemma application_mime_read_as_placeholder_witness :
  read_file mime_db json_env demo_config "/data.json" "utf8"
  = Ok (mkReadData true binary_placeholder "/data.json" 5 "application/json" 3
          None (Some ".json")) /\
  exists d, read_file mime_db json_env demo_config "/data.json" "utf8" = Ok d /\
            rd_isBinary d = true /\ rd_content d = binary_placeholder.
Proof.
  split; [vm_compute; reflexivity|].
  apply (proj2 application_mime_read_as_placeholder mime_db json_env demo_config
           "/data.json" "utf8" ["data.json"] ["data.json"] 5%Z 3%Z (Some "[1,2]"));
    vm_compute; first [reflexivity | discriminate].
Defined.

(* ------------------------------------------------------------------ *)
(** ** The wildcard matcher *)

(** The spec's examples hold. *)
Example matchesPattern_spec_examples :
  matchesPattern "report.txt" "*.txt" = Some true /\
  matchesPattern "report.txt" "*.TXT" = Some true /\
  matchesPattern "a.txt" "?.txt" = Some true /\
  matchesPattern "ab.txt" "?.txt" = Some false.
Proof. repeat split; reflexivity. Qed.

(** C5 fails: no metacharacter is escaped, so the [.] of [file.txt] is the
    regular-expression wildcard and the pattern matches [fileAtxt]. *)
Theorem matchesPattern_dot_unescaped :
  regex_source "file.txt" = "^file.txt$" /\
  matchesPattern "fileAtxt" "file.txt" = Some true /\
  glob_spec "file.txt" "fileAtxt" = false.
Proof. repeat split; reflexivity. Qed.

(** The name [a], line feed, [b.txt]. *)
Definition newline_name : string := String "a" (String "010" "b.txt").

(** C6 fails: [*] is compiled to [.*], and [.] does not match a line
    terminator, so [*.txt] does not match a name with a line feed; and a
    pattern character next to a wildcard changes what the wildcard means
    ([\*] is a run of dots, not a backslash followed by anything). *)
Theorem matchesPattern_wildcards_not_any_char :
  matchesPattern newline_name "*.txt" = Some false /\
  glob_spec "*.txt" newline_name = true /\
  matchesPattern "\notes" "\*" = Some false /\
  glob_spec "\*" "\notes" = true.
Proof. repeat split; reflexivity. Qed.

(* ------------------------------------------------------------------ *)
(** ** The extension gate is applied by [read_file] only *)

(** The entries [list_directory] does not skip as hidden. *)
Definition visible (include_hidden : bool) (name : string) : bool :=
  include_hidden || negb (startsWith name ".").

Lemma validatePath_ok_inv cwd rs p vp :
  validatePath cwd rs p = Ok vp -> vp = resolve cwd p /\ restricted_hit rs vp = None.
Proof.
  unfold validatePath. destruct (restricted_hit rs (resolve cwd p)) eqn:H;
    intros E; inversion E; subst; auto.
Qed.



(** A restricted-free tree with a plain and a hidden non-allowlisted file. *)
Definition docs_env : env :=
  mkEnv [] (Dir true [("docs", Dir true [("notes.bin", File 3 0 (Some "abc"));
                                         (".notes.bin", File 3 0 (Some "abc"))])]).



(* ------------------------------------------------------------------ *)
(** ** The size limit of [read_file] *)

(** The test [read_file] uses to answer with metadata only. *)
Definition binary_by_name (types : string -> option string) (vp : list string) : bool :=
  includes readBinaryExtensions (toLowerCase (extname vp))
  || startsWith (or_unknown (lookup_path types vp)) "image/"
  || startsWith (or_unknown (lookup_path types vp)) "application/".

(** C8. For a regular file past the path and extension gates, the size
    test is strict. A size up to [maxFileSize] (so exactly [maxFileSize])
    passes it: the read never fails with [FileTooLarge], and it succeeds,
    reporting that size, whenever it does not depend on anything but the
    size, that is when the file is answered as binary, or the process may
    read it and the encoding is one [fs.readFile] accepts (the default
    [utf8] among them). A size above it (so [maxFileSize + 1]) fails with
    [FileTooLarge]. *)
Theorem read_size_boundary :
  forall types e cfg p enc vp rp size mtime data,
  validatePath (cwd e) (restrictedPaths cfg) p = Ok vp ->
  validateExtension cfg vp = Ok tt ->
  stat e vp = Some (rp, File size mtime data) ->
  ((size <= maxFileSize cfg)%Z ->
   (forall s m, read_file types e cfg p enc <> Err (FileTooLarge s m)) /\
   ((exists content, data = Some content) /\ encoding_ok enc = true
    \/ binary_by_name types vp = true ->
    exists d, read_file types e cfg p enc = Ok d /\ rd_size d = size)) /\
  ((maxFileSize cfg < size)%Z ->
   read_file types e cfg p enc = Err (FileTooLarge size (maxFileSize cfg))).
Proof.
  intros types e cfg p enc vp rp size mtime data Hv He Hs.
  unfold read_file. rewrite Hv, He, Hs. split.
  - intros Hle.
    replace (size >? maxFileSize cfg)%Z with false
      by (symmetry; rewrite Z.gtb_ltb; apply Z.ltb_ge; lia).
    cbv zeta. unfold binary_by_name. split.
    + intros s m.
      destruct (includes readBinaryExtensions _ || _ || _); [discriminate|].
      destruct (encoding_ok enc); [|discriminate].
      destruct data; discriminate.
    + intros Hok.
      destruct (includes readBinaryExtensions _ || _ || _).
      * eexists. split; reflexivity.
      * destruct Hok as [[[content ->] Henc]|Hb]; [|discriminate].
        rewrite Henc. eexists. split; reflexivity.
  - intros Hlt.
    replace (size >? maxFileSize cfg)%Z with true
      by (symmetry; rewrite Z.gtb_ltb; apply Z.ltb_lt; lia).
    reflexivity.
Qed.

Definition sized_env (size : Z) : env :=
  mkEnv [] (Dir true [("a.txt", File size 0 (Some "..."))]).

Lemma read_size_boundary_witness :
  (exists d, read_file mime_db (sized_env 100) demo_config "/a.txt" "utf8" = Ok d /\
             rd_size d = 100%Z) /\
  read_file mime_db (sized_env 101) demo_config "/a.txt" "utf8"
    = Err (FileTooLarge 101 100).
Proof.
  split.
  - apply (proj2 (proj1 (read_size_boundary mime_db (sized_env 100) demo_config
             "/a.txt" "utf8" ["a.txt"] ["a.txt"] 100%Z 0%Z (Some "...")
             eq_refl eq_refl eq_refl) ltac:(vm_compute; discriminate))).
    left. split; [exists "..."; reflexivity | reflexivity].
  - apply (proj2 (read_size_boundary mime_db (sized_env 101) demo_config "/a.txt"
             "utf8" ["a.txt"] ["a.txt"] 101%Z 0%Z (Some "...") eq_refl eq_refl eq_refl)).
    vm_compute. reflexivity.
Defined.

(* ------------------------------------------------------------------ *)
(** ** The recursive search *)

Section SearchProps.

Variable types : string -> option string.
Variable matches : string -> option bool.
Variable recursive : bool.

(** A hit lies in a directory at most 10 levels below [vp]. *)
Definition hit_within (vp : list string) (h : search_hit) : Prop :=
  exists ds name, (length ds <= 10)%nat /\ sh_path h = render (vp ++ ds ++ [name]).

Lemma searchInDirectory_within (vp : list string) :
  forall k depth ds n acc,
  (11 - depth <= k)%nat -> length ds = depth ->
  (forall h, In h acc -> hit_within vp h) ->
  forall h, In h (fst (searchInDirectory types matches recursive depth (vp ++ ds) n acc)) ->
  hit_within vp h.
Proof.
  induction k as [|k IHk]; intros depth ds n acc Hk Hlen Hacc.
  - destruct n; simpl; replace (10 <? depth)%nat with true by (symmetry; apply Nat.ltb_lt; lia);
      exact Hacc.
  - destruct (10 <? depth)%nat eqn:Hd.
    + destruct n; simpl; rewrite Hd; exact Hacc.
    + apply Nat.ltb_ge in Hd.
      destruct n as [size mtime data|readable es|t]; simpl;
        replace (10 <? depth)%nat with false by (symmetry; apply Nat.ltb_ge; lia);
        try exact Hacc.
      destruct readable; [|exact Hacc].
      revert acc Hacc. induction es as [|[name d] es IHes]; intros acc Hacc; [exact Hacc|].
      destruct d as [dsize dmtime ddata|dr des|dt].
      * destruct (matches name) as [[|]|].
        -- apply IHes. intros h [Hin|[Heq|[]]]%in_app_or; [exact (Hacc h Hin)|].
           subst h. exists ds, name. split; [lia|]. simpl. now rewrite app_assoc.
        -- apply IHes. exact Hacc.
        -- exact Hacc.
      * destruct recursive; apply IHes; [|exact Hacc].
        rewrite <- app_assoc.
        apply (IHk (S depth) (ds ++ [name])); [lia| rewrite length_app; simpl; lia | exact Hacc].
      * apply IHes. exact Hacc.
Qed.

(** The same tree with every unreadable directory replaced by an empty,
    readable one. *)
Fixpoint heal (n : node) : node :=
  match n with
  | Dir true es => Dir true (map (fun '(k, d) => (k, heal d)) es)
  | Dir false _ => Dir true []
  | x => x
  end.

Definition heal_entries (es : list (string * node)) : list (string * node) :=
  map (fun '(k, d) => (k, heal d)) es.

Lemma searchInDirectory_heal :
  forall k depth dir es acc, (11 - depth <= k)%nat ->
  searchInDirectory types matches recursive depth dir (Dir true es) acc
  = searchInDirectory types matches recursive depth dir (Dir true (heal_entries es)) acc.
Proof.
  induction k as [|k IHk]; intros depth dir es acc Hk.
  - simpl. replace (10 <? depth)%nat with true by (symmetry; apply Nat.ltb_lt; lia).
    reflexivity.
  - simpl. destruct (10 <? depth)%nat eqn:Hd; [reflexivity|].
    apply Nat.ltb_ge in Hd.
    unfold heal_entries.
    revert acc. induction es as [|[name d] es IHes]; intros acc; [reflexivity|].
    destruct d as [dsize dmtime ddata|[|] des|dt];
      cbn -[searchInDirectory render dirname lookup_path].
    + destruct (matches name) as [[|]|]; [apply IHes | apply IHes | reflexivity].
    + destruct recursive; [|apply IHes].
      change (map (fun '(k, d) => (k, heal d)) des) with (heal_entries des).
      rewrite (IHk (S depth) (dir ++ [name]) des acc) by lia.
      apply IHes.
    + destruct recursive; [|apply IHes].
      assert (E1 : fst (searchInDirectory types matches true (S depth) (dir ++ [name])
                          (Dir false des) acc) = acc)
        by (simpl; destruct (10 <? S depth)%nat; reflexivity).
      assert (E2 : fst (searchInDirectory types matches true (S depth) (dir ++ [name])
                          (Dir true []) acc) = acc)
        by (simpl; destruct (10 <? S depth)%nat; reflexivity).
      rewrite E1, E2. apply IHes.
    + apply IHes.
Qed.

(** With a matcher that never throws, the search of a readable directory
    throws nothing. *)
Lemma searchInDirectory_no_error depth dir es acc :
  (forall name, matches name <> None) ->
  snd (searchInDirectory types matches recursive depth dir (Dir true es) acc) = None.
Proof.
  intros Hm. simpl. destruct (10 <? depth)%nat; [reflexivity|].
  revert acc. induction es as [|[name d] es IHes]; intros acc; [reflexivity|].
  destruct d as [dsize dmtime ddata|dr des|dt];
    cbn -[searchInDirectory render dirname lookup_path].
  - destruct (matches name) as [[|]|] eqn:Hn; [apply IHes | apply IHes |].
    exfalso. exact (Hm name Hn).
  - destruct recursive; apply IHes.
  - apply IHes.
Qed.

End SearchProps.

(** A directory chain: every level holds [f.txt] and, but for the last,
    a subdirectory [d]. *)
Fixpoint chain_dir (k : nat) : node :=
  match k with
  | O => Dir true [("f.txt", File 1 0 (Some "x"))]
  | S k' => Dir true [("f.txt", File 1 0 (Some "x")); ("d", chain_dir k')]
  end.

(** [/r] is a chain of depth 15. *)
Definition chain_env : env := mkEnv [] (Dir true [("r", chain_dir 15)]).

Definition hit_paths (r : result (list search_hit)) : option (list string) :=
  match r with Ok hs => Some (map sh_path hs) | Err _ => None end.

(** C9. Every hit of a successful search lies in a directory at most 10
    levels below the search root (the traversal, a structural recursion
    on the tree, stops descending there without an error); on a chain of
    depth 15 the recursive search succeeds and finds [f.txt] exactly at
    depths 0 to 10. *)
Theorem search_depth_bounded :
  (forall types matches recursive e cfg p vp hits,
    validatePath (cwd e) (restrictedPaths cfg) p = Ok vp ->
    search_files_with types matches recursive e cfg p = Ok hits ->
    forall h, In h hits -> hit_within vp h) /\
  hit_paths (search_files mime_db chain_env demo_config "/r" "*.txt" true)
  = Some (map (fun k => render (["r"] ++ repeat "d" k ++ ["f.txt"])) (seq 0 11)).
Proof.
  split; [|vm_compute; reflexivity].
  intros types matches recursive e cfg p vp hits Hv Hs h Hin.
  unfold search_files_with in Hs. rewrite Hv in Hs.
  destruct (stat e vp) as [[rp n]|]; [|discriminate].
  destruct (searchInDirectory types matches recursive 0 vp n []) as [res [er|]] eqn:Hsd;
    [discriminate|]. inversion Hs; subst res.
  apply (searchInDirectory_within types matches recursive vp 11 0 [] n []);
    [lia | reflexivity | intros ? []|].
  rewrite app_nil_r, Hsd. exact Hin.
Qed.

Lemma search_depth_bounded_witness :
  validatePath [] ["/system"] "/r" = Ok ["r"] /\
  exists hits, search_files mime_db chain_env demo_config "/r" "*.txt" true = Ok hits /\
    forall h, In h hits -> hit_within ["r"] h.
Proof.
  split; [reflexivity|].
  destruct (search_files mime_db chain_env demo_config "/r" "*.txt" true) as [hits|er]
    eqn:Hs; [|vm_compute in Hs; discriminate].
  exists hits. split; [reflexivity|].
  exact (proj1 search_depth_bounded mime_db _ true chain_env demo_config "/r" ["r"] hits
           eq_refl Hs).
Defined.

(** C10. Searching a readable root, an unreadable subdirectory is skipped:
    the answer is the one for the same tree where every unreadable
    directory is an empty readable one, and with a matcher that does not
    throw it is a success. *)
Theorem search_skips_unreadable_subdirs :
  forall types matches recursive e cfg p vp rp es,
  validatePath (cwd e) (restrictedPaths cfg) p = Ok vp ->
  stat e vp = Some (rp, Dir true es) ->
  search_files_with types matches recursive e cfg p
  = match searchInDirectory types matches recursive 0 vp
            (Dir true (heal_entries es)) [] with
    | (results, None) => Ok results
    | (_, Some er) => Err er
    end /\
  ((forall name, matches name <> None) ->
   search_files_with types matches recursive e cfg p
   = Ok (fst (searchInDirectory types matches recursive 0 vp
                (Dir true (heal_entries es)) []))).
Proof.
  intros types matches recursive e cfg p vp rp es Hv Hs.
  assert (E : search_files_with types matches recursive e cfg p
    = match searchInDirectory types matches recursive 0 vp
              (Dir true (heal_entries es)) [] with
      | (results, None) => Ok results
      | (_, Some er) => Err er
      end).
  { unfold search_files_with. rewrite Hv, Hs.
    rewrite (searchInDirectory_heal types matches recursive 11 0 vp es []) by lia.
    reflexivity. }
  split; [exact E|]. intros Hm. rewrite E.
  pose proof (searchInDirectory_no_error types matches recursive 0 vp
                (heal_entries es) [] Hm) as Hn.
  destruct (searchInDirectory _ _ _ _ _ _ _) as [res er]. simpl in Hn. subst er.
  reflexivity.
Qed.

(** [/top] holds [a.txt], an unreadable [locked] and a readable [sub]. *)
Definition locked_env : env :=
  mkEnv [] (Dir true [("top", Dir true
    [("a.txt", File 1 0 (Some "x"));
     ("locked", Dir false [("hidden.txt", File 1 0 (Some "y"))]);
     ("sub", Dir true [("b.txt", File 1 0 (Some "z"))])])]).

Lemma search_skips_unreadable_subdirs_witness :
  hit_paths (search_files mime_db locked_env demo_config "/top" "*.txt" true)
  = Some ["/top/a.txt"; "/top/sub/b.txt"] /\
  search_files mime_db locked_env demo_config "/top" "*.txt" true
  = Ok (fst (searchInDirectory mime_db (fun name => matchesPattern name "*.txt") true
               0 ["top"] (Dir true (heal_entries
                  [("a.txt", File 1 0 (Some "x"));
                   ("locked", Dir false [("hidden.txt", File 1 0 (Some "y"))]);
                   ("sub", Dir true [("b.txt", File 1 0 (Some "z"))])])) [])).
Proof.
  split; [vm_compute; reflexivity|].
  apply (proj2 (search_skips_unreadable_subdirs mime_db
           (fun name => matchesPattern name "*.txt") true locked_env demo_config
           "/top" ["top"] ["top"] _ eq_refl eq_refl)).
  intros name. unfold matchesPattern. simpl. discriminate.
Defined.

(* ================================================================== *)
(** * Further properties of the tools *)

(* ------------------------------------------------------------------ *)
(** ** [list_directory] lists the visible entries *)

Lemma list_entries_names types e dir ih es items :
  list_entries types e dir ih es = Ok items ->
  map it_name items = filter (visible ih) (map fst es) /\
  Forall (fun it => it_path it = render (dir ++ [it_name it])) items.
Proof.
  revert items. induction es as [|[k d] es IH]; intros items H.
  - inversion H. split; [reflexivity | constructor].
  - simpl in H. unfold visible at 1. simpl.
    destruct (negb ih && startsWith k ".") eqn:Hh.
    + replace (ih || negb (startsWith k ".")) with false
        by (destruct ih, (startsWith k "."); simpl in *; congruence).
      exact (IH items H).
    + replace (ih || negb (startsWith k ".")) with true
        by (destruct ih, (startsWith k "."); simpl in *; congruence).
      destruct (stat e (dir ++ [k])) as [[rp n]|]; [|discriminate].
      destruct (list_entries types e dir ih es) as [items'|er]; [|discriminate].
      inversion H; subst. destruct (IH items' eq_refl) as [H1 H2].
      simpl. split; [now rewrite H1 | constructor; [reflexivity | exact H2]].
Qed.

(** A successful [list_directory] lists, in [readdir] order, exactly the
    entries of the directory that are visible (all of them with
    [include_hidden], else those not starting with ["."]), each with the
    path [dir/name]; without [include_hidden] no listed name starts with
    ["."]. *)
Theorem list_directory_lists_visible_entries :
  forall types e cfg q ih items,
  list_directory types e cfg q ih = Ok items ->
  exists dir rp es,
    validatePath (cwd e) (restrictedPaths cfg) q = Ok dir /\
    stat e dir = Some (rp, Dir true es) /\
    map it_name items = filter (visible ih) (map fst es) /\
    Forall (fun it => it_path it = render (dir ++ [it_name it])) items /\
    (ih = false -> forall it, In it items -> startsWith (it_name it) "." = false).
Proof.
  intros types e cfg q ih items. unfold list_directory.
  destruct (validatePath _ _ q) as [dir|er] eqn:Hv; [|discriminate].
  destruct (stat e dir) as [[rp n]|] eqn:Hs; [|discriminate].
  destruct n as [s m dt|[|] es|t]; try discriminate.
  intros H. destruct (list_entries_names _ _ _ _ _ _ H) as [Hn Hp].
  exists dir, rp, es. split; [reflexivity|]. do 3 (split; [assumption|]).
  intros -> it Hin.
  assert (Hf : In (it_name it) (filter (visible false) (map fst es)))
    by (rewrite <- Hn; now apply in_map).
  apply filter_In in Hf as [_ Hf]. unfold visible in Hf. simpl in Hf.
  now destruct (startsWith (it_name it) ".").
Qed.

Lemma list_directory_lists_visible_entries_witness :
  exists items, list_directory mime_db docs_env demo_config "/docs" false = Ok items /\
  exists dir rp es,
    validatePath [] ["/system"] "/docs" = Ok dir /\
    stat docs_env dir = Some (rp, Dir true es) /\
    map it_name items = filter (visible false) (map fst es) /\
    Forall (fun it => it_path it = render (dir ++ [it_name it])) items /\
    (false = false -> forall it, In it items -> startsWith (it_name it) "." = false).
Proof.
  destruct (list_directory mime_db docs_env demo_config "/docs" false) as [items|er]
    eqn:H; [|vm_compute in H; discriminate].
  exists items. split; [reflexivity|].
  exact (list_directory_lists_visible_entries mime_db docs_env demo_config "/docs"
           false items H).
Defined.
(* ------------------------------------------------------------------ *)
(** ** What [search_files] reports *)

(** [reach n ds m]: [m] is reached from [n] through readable directories
    along the entry names [ds], by the entries' own types (no link is
    followed), as the recursion of [searchInDirectory] walks the tree. *)
Inductive reach : node -> list string -> node -> Prop :=
  | reach_nil n : reach n [] n
  | reach_cons es x sub ds m :
      In (x, sub) es -> reach sub ds m -> reach (Dir true es) (x :: ds) m.

Lemma reach_app a ds b ds' c :
  reach a ds b -> reach b ds' c -> reach a (ds ++ ds') c.
Proof.
  induction 1 as [n|es x sub ds0 m Hin Hr IH]; intros H; [exact H|].
  simpl. econstructor; [exact Hin | exact (IH H)].
Qed.

Lemma dirname_snoc (p : list string) (name : string) :
  dirname (p ++ [name]) = render p.
Proof. unfold dirname. now rewrite removelast_last. Qed.

Section SearchSound.

Variable types : string -> option string.
Variable matches : string -> option bool.
Variable recursive : bool.

(** A hit of a search rooted at [vp] on the node [n0]. *)
Definition sound_hit (vp : list string) (n0 : node) (h : search_hit) : Prop :=
  matches (sh_name h) = Some true /\
  exists ds s mt dt,
    reach n0 (ds ++ [sh_name h]) (File s mt dt) /\
    sh_path h = render (vp ++ ds ++ [sh_name h]) /\
    sh_directory h = render (vp ++ ds) /\
    sh_size h = s /\ sh_lastModified h = mt.

Lemma searchInDirectory_sound (vp : list string) (n0 : node) :
  forall k depth ds n acc,
  (11 - depth <= k)%nat -> reach n0 ds n ->
  (forall h, In h acc -> sound_hit vp n0 h) ->
  forall h, In h (fst (searchInDirectory types matches recursive depth (vp ++ ds) n acc)) ->
  sound_hit vp n0 h.
Proof.
  induction k as [|k IHk]; intros depth ds n acc Hk Hr Hacc.
  - destruct n; simpl; replace (10 <? depth)%nat with true by (symmetry; apply Nat.ltb_lt; lia);
      exact Hacc.
  - destruct (10 <? depth)%nat eqn:Hd.
    + destruct n; simpl; rewrite Hd; exact Hacc.
    + destruct n as [size mtime data|readable es|t]; simpl; rewrite Hd; try exact Hacc.
      destruct readable; [|exact Hacc].
      assert (Hsub : forall es', (forall x, In x es' -> In x es) -> forall acc,
        (forall h, In h acc -> sound_hit vp n0 h) ->
        forall h, In h (fst ((fix loop (es0 : list (string * node)) (acc0 : list search_hit)
           : list search_hit * option error :=
           match es0 with
           | [] => (acc0, None)
           | (name, d) :: es'0 =>
               match d with
               | File size0 mtime0 _ =>
                   match matches name with
                   | Some true =>
                       loop es'0 (acc0 ++ [mkSearchHit name (render ((vp ++ ds) ++ [name]))
                                   (dirname ((vp ++ ds) ++ [name])) size0 mtime0
                                   (extname_seg name)
                                   (or_unknown (lookup_path types ((vp ++ ds) ++ [name])))])
                   | Some false => loop es'0 acc0
                   | None => (acc0, Some RegexError)
                   end
               | Dir _ _ =>
                   if recursive
                   then loop es'0 (fst (searchInDirectory types matches recursive
                                          (S depth) ((vp ++ ds) ++ [name]) d acc0))
                   else loop es'0 acc0
               | Symlink _ => loop es'0 acc0
               end
           end) es' acc)) -> sound_hit vp n0 h).
      { induction es' as [|[name d] es' IHes]; intros Hincl acc0 Hacc0; [exact Hacc0|].
        assert (Hin : In (name, d) es) by (apply Hincl; left; reflexivity).
        assert (Hincl' : forall x, In x es' -> In x es) by (intros; apply Hincl; right; assumption).
        destruct d as [dsize dmtime ddata|dr des|dt].
        - destruct (matches name) as [[|]|] eqn:Hm.
          + apply (IHes Hincl'). intros h [Hh|[Heq|[]]]%in_app_or; [exact (Hacc0 h Hh)|].
            subst h. split; [exact Hm|]. exists ds, dsize, dmtime, ddata. simpl.
            split; [|rewrite dirname_snoc, <- !app_assoc; repeat split; reflexivity].
            apply (reach_app _ _ _ _ _ Hr). econstructor; [exact Hin | constructor].
          + exact (IHes Hincl' acc0 Hacc0).
          + exact Hacc0.
        - destruct recursive; apply (IHes Hincl'); [|exact Hacc0].
          rewrite <- app_assoc.
          apply (IHk (S depth) (ds ++ [name])); [lia| |exact Hacc0].
          apply (reach_app _ _ _ _ _ Hr). econstructor; [exact Hin | constructor].
        - exact (IHes Hincl' acc0 Hacc0). }
      exact (Hsub es (fun x H => H) acc Hacc).
Qed.



End SearchSound.

(** Every hit of a successful [search_files] is a regular file whose name
    the matcher accepted, found by walking readable directories from the
    node at the search root, never through a link; its reported path,
    directory, size and modification time are those of that file. *)
Theorem search_hits_are_matching_files :
  forall types matches recursive e cfg p hits,
  search_files_with types matches recursive e cfg p = Ok hits ->
  exists vp rp n,
    validatePath (cwd e) (restrictedPaths cfg) p = Ok vp /\
    stat e vp = Some (rp, n) /\
    forall h, In h hits -> sound_hit matches vp n h.
Proof.
  intros types matches recursive e cfg p hits. unfold search_files_with.
  destruct (validatePath _ _ p) as [vp|er]; [|discriminate].
  destruct (stat e vp) as [[rp n]|] eqn:Hs; [|discriminate].
  destruct (searchInDirectory types matches recursive 0 vp n []) as [res [er|]] eqn:Hsd;
    [discriminate|].
  intros H. inversion H; subst res. exists vp, rp, n.
  split; [reflexivity|]. split; [exact Hs|]. intros h Hin.
  apply (searchInDirectory_sound types matches recursive vp n 11 0 [] n []);
    [lia | constructor | intros ? []|].
  rewrite app_nil_r, Hsd. exact Hin.
Qed.

Lemma search_hits_are_matching_files_witness :
  exists hits, search_files mime_db locked_env demo_config "/top" "*.txt" true = Ok hits /\
  exists vp rp n,
    validatePath [] ["/system"] "/top" = Ok vp /\
    stat locked_env vp = Some (rp, n) /\
    forall h, In h hits -> sound_hit (fun name => matchesPattern name "*.txt") vp n h.
Proof.
  destruct (search_files mime_db locked_env demo_config "/top" "*.txt" true) as [hits|er]
    eqn:H; [|vm_compute in H; discriminate].
  exists hits. split; [reflexivity|].
  exact (search_hits_are_matching_files mime_db (fun name => matchesPattern name "*.txt")
           true locked_env demo_config "/top" hits H).
Defined.



(* ------------------------------------------------------------------ *)
(** ** The metadata tools never look at file contents *)

Lemma node_size_erase n : node_size (erase_node n) = node_size n.
Proof. now destruct n. Qed.
Lemma node_mtime_erase n : node_mtime (erase_node n) = node_mtime n.
Proof. now destruct n. Qed.
Lemma is_file_erase n : is_file (erase_node n) = is_file n.
Proof. now destruct n. Qed.
Lemma is_dir_erase n : is_dir (erase_node n) = is_dir n.
Proof. now destruct n. Qed.

Lemma get_file_info_erase types e cfg p :
  get_file_info types (erase_env e) cfg p = get_file_info types e cfg p.
Proof.
  unfold get_file_info. change (cwd (erase_env e)) with (cwd e).
  destruct (validatePath _ _ p) as [vp|er]; [|reflexivity].
  rewrite stat_erase. destruct (stat e vp) as [[rp n]|]; [|reflexivity].
  cbn [option_map]. now rewrite node_size_erase, node_mtime_erase, is_file_erase,
    is_dir_erase.
Qed.

Lemma list_entries_erase types e dir ih es :
  list_entries types (erase_env e) dir ih (map (fun '(k, d) => (k, erase_node d)) es)
  = list_entries types e dir ih es.
Proof.
  induction es as [|[k d] es IH]; [reflexivity|]. simpl.
  destruct (negb ih && startsWith k "."); [exact IH|].
  rewrite stat_erase. destruct (stat e (dir ++ [k])) as [[rp n]|]; [|reflexivity].
  cbn [option_map]. rewrite IH.
  destruct (list_entries types e dir ih es); [|reflexivity].
  now rewrite node_size_erase, node_mtime_erase, is_file_erase, is_dir_erase.
Qed.

Lemma list_directory_erase types e cfg p ih :
  list_directory types (erase_env e) cfg p ih = list_directory types e cfg p ih.
Proof.
  unfold list_directory. change (cwd (erase_env e)) with (cwd e).
  destruct (validatePath _ _ p) as [vp|er]; [|reflexivity].
  rewrite stat_erase. destruct (stat e vp) as [[rp n]|]; [|reflexivity].
  cbn [option_map]. destruct n as [s m dt|[|] es|t]; try reflexivity.
  apply list_entries_erase.
Qed.

Lemma searchInDirectory_erase types matches recursive :
  forall k depth dir n acc, (11 - depth <= k)%nat ->
  searchInDirectory types matches recursive depth dir (erase_node n) acc
  = searchInDirectory types matches recursive depth dir n acc.
Proof.
  induction k as [|k IHk]; intros depth dir n acc Hk.
  - destruct n; simpl; replace (10 <? depth)%nat with true by (symmetry; apply Nat.ltb_lt; lia);
      reflexivity.
  - destruct n as [s m dt|[|] es|t]; simpl; destruct (10 <? depth)%nat eqn:Hd;
      try reflexivity.
    apply Nat.ltb_ge in Hd.
    revert acc. induction es as [|[name d] es IHes]; intros acc; [reflexivity|].
    destruct d as [dsize dmtime ddata|dr des|dt];
      cbn -[searchInDirectory render dirname lookup_path].
    + destruct (matches name) as [[|]|]; [apply IHes | apply IHes | reflexivity].
    + destruct recursive; [|apply IHes].
      change (Dir dr (map (fun '(k, d) => (k, erase_node d)) des))
        with (erase_node (Dir dr des)).
      rewrite (IHk (S depth) (dir ++ [name]) (Dir dr des) acc) by lia.
      apply IHes.
    + apply IHes.
Qed.

Lemma search_files_with_erase types matches recursive e cfg p :
  search_files_with types matches recursive (erase_env e) cfg p
  = search_files_with types matches recursive e cfg p.
Proof.
  unfold search_files_with. change (cwd (erase_env e)) with (cwd e).
  destruct (validatePath _ _ p) as [vp|er]; [|reflexivity].
  rewrite stat_erase. destruct (stat e vp) as [[rp n]|]; [|reflexivity].
  cbn [option_map]. now rewrite (searchInDirectory_erase types matches recursive 11).
Qed.

(** [get_file_info], [list_directory] and [search_files] give the same
    answer on any two trees that differ only in the bytes of their files:
    they read metadata only. *)
Theorem metadata_tools_ignore_file_bytes :
  forall types matches recursive e1 e2 cfg p ih,
  erase_env e1 = erase_env e2 ->
  get_file_info types e1 cfg p = get_file_info types e2 cfg p /\
  list_directory types e1 cfg p ih = list_directory types e2 cfg p ih /\
  search_files_with types matches recursive e1 cfg p
  = search_files_with types matches recursive e2 cfg p.
Proof.
  intros types matches recursive e1 e2 cfg p ih H.
  rewrite <- (get_file_info_erase types e1), <- (get_file_info_erase types e2),
    <- (list_directory_erase types e1), <- (list_directory_erase types e2),
    <- (search_files_with_erase types matches recursive e1),
    <- (search_files_with_erase types matches recursive e2), H.
  repeat split.
Qed.

Lemma metadata_tools_ignore_file_bytes_witness :
  erase_env (png_env "PNG1") = erase_env (png_env "ABCD") /\
  get_file_info mime_db (png_env "PNG1") image_config "/"
  = get_file_info mime_db (png_env "ABCD") image_config "/" /\
  list_directory mime_db (png_env "PNG1") image_config "/" true
  = list_directory mime_db (png_env "ABCD") image_config "/" true /\
  search_files mime_db (png_env "PNG1") image_config "/" "*.png" true
  = search_files mime_db (png_env "ABCD") image_config "/" "*.png" true.
Proof.
  split; [reflexivity|].
  exact (metadata_tools_ignore_file_bytes mime_db (fun name => matchesPattern name "*.png")
           true (png_env "PNG1") (png_env "ABCD") image_config "/" true eq_refl).
Defined.

(* ------------------------------------------------------------------ *)
(** ** Validated paths are in normal form *)

Fixpoint has_slash (s : string) : bool :=
  match s with
  | EmptyString => false
  | String c s' => Ascii.eqb c slash || has_slash s'
  end.

(** A segment of a normalized absolute path: not empty, not ["."] nor
    [".."], and free of ["/"]. *)
Definition normal_seg (s : string) : bool :=
  negb (String.eqb s "") && negb (String.eqb s ".") && negb (String.eqb s "..")
  && negb (has_slash s).

Lemma has_slash_app (a b : string) :
  has_slash (a ++ b) = has_slash a || has_slash b.
Proof. induction a as [|c a IH]; simpl; [reflexivity|]. now rewrite IH, orb_assoc. Qed.

Lemma split_aux_no_slash (s : string) :
  forall cur, has_slash cur = false ->
  Forall (fun x => has_slash x = false) (split_aux s cur).
Proof.
  induction s as [|c s IH]; intros cur Hc; simpl; [constructor; [exact Hc | constructor]|].
  destruct (Ascii.eqb c slash) eqn:Hs.
  - constructor; [exact Hc | apply IH; reflexivity].
  - apply IH. rewrite has_slash_app. simpl. now rewrite Hc, Hs.
Qed.

Lemma Forall_removelast {A} (P : A -> Prop) (l : list A) :
  Forall P l -> Forall P (removelast l).
Proof.
  induction 1 as [|x l Hx Hl IH]; [constructor|].
  destruct l as [|y l]; [constructor|]. constructor; assumption.
Qed.

Lemma fold_norm_step_normal (segs acc : list string) :
  Forall (fun s => normal_seg s = true) acc ->
  Forall (fun x => has_slash x = false) segs ->
  Forall (fun s => normal_seg s = true) (fold_left norm_step segs acc).
Proof.
  revert acc. induction segs as [|seg segs IH]; intros acc Ha Hs; [exact Ha|].
  inversion Hs as [|? ? Hseg Hsegs]; subst. simpl. apply IH; [|exact Hsegs].
  unfold norm_step.
  destruct (String.eqb seg "") eqn:E1; [exact Ha|].
  destruct (String.eqb seg ".") eqn:E2; [exact Ha|].
  destruct (String.eqb seg "..") eqn:E3; [apply Forall_removelast; exact Ha|].
  apply Forall_app. split; [exact Ha|]. constructor; [|constructor].
  unfold normal_seg. now rewrite E1, E2, E3, Hseg.
Qed.

Lemma resolve_normal (cwd : list string) (p : string) :
  Forall (fun s => normal_seg s = true) cwd ->
  Forall (fun s => normal_seg s = true) (resolve cwd p).
Proof.
  intros Hc. unfold resolve, normalize.
  destruct (is_absolute p); apply fold_norm_step_normal;
    try (apply split_aux_no_slash; reflexivity); [constructor | exact Hc].
Qed.

Lemma split_aux_app_no_slash (s t : string) :
  has_slash s = false -> forall cur, split_aux (s ++ t) cur = split_aux t (cur ++ s).
Proof.
  induction s as [|c s IH]; intros Hs cur; simpl.
  - now rewrite str_app_nil_r.
  - simpl in Hs. apply orb_false_iff in Hs as [Hc Hs]. rewrite Hc, IH by exact Hs.
    now rewrite <- str_app_assoc.
Qed.

Lemma split_join_segs (segs : list string) :
  segs <> [] -> Forall (fun x => has_slash x = false) segs ->
  split_aux (join_segs segs) "" = segs.
Proof.
  induction segs as [|s segs IH]; intros Hne Hs; [congruence|].
  inversion Hs as [|? ? Hs1 Hsegs]; subst.
  destruct segs as [|s2 segs].
  - simpl. rewrite <- (str_app_nil_r s) at 1.
    rewrite split_aux_app_no_slash by exact Hs1. reflexivity.
  - change (join_segs (s :: s2 :: segs)) with (s ++ "/" ++ join_segs (s2 :: segs))%string.
    rewrite split_aux_app_no_slash by exact Hs1. simpl.
    f_equal. apply IH; [discriminate | exact Hsegs].
Qed.

Lemma fold_norm_step_app (segs acc : list string) :
  Forall (fun s => normal_seg s = true) segs ->
  fold_left norm_step segs acc = acc ++ segs.
Proof.
  revert acc. induction segs as [|s segs IH]; intros acc Hs; simpl.
  - now rewrite app_nil_r.
  - inversion Hs as [|? ? Hn Hsegs]; subst. unfold norm_step at 2.
    unfold normal_seg in Hn.
    destruct (String.eqb s ""), (String.eqb s "."), (String.eqb s ".."); try discriminate.
    rewrite IH by exact Hsegs. now rewrite <- app_assoc.
Qed.

Lemma resolve_render (cwd segs : list string) :
  Forall (fun s => normal_seg s = true) segs -> resolve cwd (render segs) = segs.
Proof.
  intros Hn. unfold resolve, render. simpl. unfold normalize, split_path. simpl.
  destruct segs as [|s segs]; [reflexivity|].
  rewrite split_join_segs; [|discriminate|].
  - apply fold_norm_step_app. exact Hn.
  - eapply Forall_impl; [|exact Hn]. intros x Hx. unfold normal_seg in Hx.
    destruct (has_slash x); [|reflexivity]. now rewrite !andb_false_r in Hx.
Qed.

(** The path [validatePath] returns (from a normalized working directory)
    is in normal form: no empty, ["."] or [".."] segment and no ["/"]
    inside a segment; validating its string form again, from any working
    directory, gives the same path back. *)
Theorem validatePath_normal_and_idempotent :
  forall cwd cwd' rs p vp,
  Forall (fun s => normal_seg s = true) cwd ->
  validatePath cwd rs p = Ok vp ->
  Forall (fun s => normal_seg s = true) vp /\
  validatePath cwd' rs (render vp) = Ok vp.
Proof.
  intros cwd cwd' rs p vp Hc Hv.
  destruct (validatePath_ok_inv _ _ _ _ Hv) as [-> Hr].
  pose proof (resolve_normal cwd p Hc) as Hn. split; [exact Hn|].
  unfold validatePath. rewrite (resolve_render cwd' _ Hn), Hr. reflexivity.
Qed.

Lemma validatePath_normal_and_idempotent_witness :
  Forall (fun s => normal_seg s = true) ["home"; "user"] /\
  validatePath ["home"; "user"] ["/system"] "..//docs/./a.txt/../b.txt"
  = Ok ["home"; "docs"; "b.txt"] /\
  Forall (fun s => normal_seg s = true) ["home"; "docs"; "b.txt"] /\
  validatePath [] ["/system"] (render ["home"; "docs"; "b.txt"])
  = Ok ["home"; "docs"; "b.txt"].
Proof.
  split; [repeat constructor|]. split; [reflexivity|].
  apply (validatePath_normal_and_idempotent ["home"; "user"] [] ["/system"]
           "..//docs/./a.txt/../b.txt"); [repeat constructor | reflexivity].
Defined.

(* ================================================================== *)
(** * The stand-alone add-on ([FileExaminer] in src/lmstudio/File Examiner/index.js) *)

(* ------------------------------------------------------------------ *)
(** ** [FileExaminer.matchesPattern] *)

(** The source given to [new RegExp(...)] (no flags): [*] becomes [.*],
    [?] becomes [.], and then every [.] (those just inserted included)
    becomes [\.]. *)
Definition js_regex_source (pattern : string) : string :=
  replace_all "."%char "\." (replace_all "?"%char "." (replace_all "*"%char ".*" pattern)).

Module RegexCS.

(** Matching without the [i] flag and without the leading [^]: literal
    characters compare exactly and [regex.test] tries every start
    position. *)
Definition atom_ok (a : Regex.atom) (c : ascii) : bool :=
  match a with
  | Regex.Lit d => Ascii.eqb d c
  | Regex.AnyChar => negb (Ascii.eqb c "010"%char) && negb (Ascii.eqb c "013"%char)
  end.

Fixpoint rmatch (ps : list Regex.piece) (anchored : bool) (s : string) : bool :=
  match ps with
  | [] => if anchored then String.eqb s "" else true
  | Regex.One a :: ps' =>
      match s with
      | String c s' => atom_ok a c && rmatch ps' anchored s'
      | EmptyString => false
      end
  | Regex.Many a :: ps' =>
      (fix star (s : string) : bool :=
         rmatch ps' anchored s
         || match s with
            | String c s' => atom_ok a c && star s'
            | EmptyString => false
            end) s
  end.

(** [regex.test(s)] for an unanchored source: a match starting at some
    position of [s]. *)
Fixpoint test (ps : list Regex.piece) (anchored : bool) (s : string) : bool :=
  rmatch ps anchored s
  || match s with
     | String _ s' => test ps anchored s'
     | EmptyString => false
     end.

End RegexCS.

(** [FileExaminer.matchesPattern(filename, pattern)]; [None] when the
    source lies outside the modelled fragment (among others, when
    [new RegExp] throws). *)
Definition matchesPattern_js (filename pattern : string) : option bool :=
  match Regex.parse_terms (js_regex_source pattern) with
  | Some (ps, anchored) => Some (RegexCS.test ps anchored filename)
  | None => None
  end.

(** [String.prototype.includes] for strings. *)
Fixpoint str_contains (s t : string) : bool :=
  startsWith s t
  || match s with
     | String _ s' => str_contains s' t
     | EmptyString => false
     end.

Fixpoint all_alnum (s : string) : bool :=
  match s with
  | EmptyString => true
  | String c s' => Regex.is_alnum c && all_alnum s'
  end.

(** The pieces of a run of literal characters. *)
Fixpoint lits (s : string) : list Regex.piece :=
  match s with
  | EmptyString => []
  | String c s' => Regex.One (Regex.Lit c) :: lits s'
  end.

Lemma replace_all_alnum (c : ascii) (r s : string) :
  Regex.is_alnum c = false -> all_alnum s = true -> replace_all c r s = s.
Proof.
  intros Hc. induction s as [|d s IH]; simpl; [reflexivity|].
  intros H. apply andb_true_iff in H as [Hd Hs].
  destruct (Ascii.eqb c d) eqn:E.
  - apply Ascii.eqb_eq in E. subst. congruence.
  - now rewrite IH.
Qed.

Lemma not_syntax_alnum (c : ascii) :
  Regex.is_alnum c = true ->
  Ascii.eqb c "$"%char = false /\ Ascii.eqb c "\"%char = false /\
  Regex.is_syntax c = false /\ Ascii.eqb c "."%char = false /\
  Ascii.eqb c "*"%char = false.
Proof.
  destruct c as [[] [] [] [] [] [] [] []]; vm_compute; intros H;
    try discriminate H; repeat split.
Qed.

Lemma parse_terms_alnum (s : string) :
  all_alnum s = true -> Regex.parse_terms s = Some (lits s, false).
Proof.
  induction s as [|c s IH]; intros H; [reflexivity|].
  simpl in H. apply andb_true_iff in H as [Hc Hs].
  destruct (not_syntax_alnum c Hc) as [E1 [E2 [E3 [E4 _]]]].
  simpl. rewrite E1, E2, E3, E4.
  destruct s as [|q s3]; [reflexivity|].
  pose proof Hs as Hs'. simpl in Hs'. apply andb_true_iff in Hs' as [Hq _].
  destruct (not_syntax_alnum q Hq) as [_ [_ [_ [_ E5]]]].
  rewrite E5, (IH Hs). reflexivity.
Qed.

Lemma rmatch_cs_lits (t s : string) :
  RegexCS.rmatch (lits t) false s = startsWith s t.
Proof.
  revert s. induction t as [|c t IH]; intros s; [now destruct s|].
  destruct s as [|d s]; simpl; [reflexivity|]. now rewrite IH.
Qed.

Lemma test_lits (t s : string) :
  RegexCS.test (lits t) false s = str_contains s t.
Proof.
  induction s as [|c s IH]; simpl; rewrite rmatch_cs_lits; [reflexivity|].
  now rewrite IH.
Qed.

Lemma rmatch_cs_many_nil a ps an :
  RegexCS.rmatch (Regex.Many a :: ps) an "" = RegexCS.rmatch ps an "".
Proof. simpl. apply orb_false_r. Qed.

Lemma rmatch_cs_many_cons a ps an c s :
  RegexCS.rmatch (Regex.Many a :: ps) an (String c s)
  = RegexCS.rmatch ps an (String c s)
    || (RegexCS.atom_ok a c && RegexCS.rmatch (Regex.Many a :: ps) an s).
Proof. reflexivity. Qed.

Lemma test_iff ps an s :
  RegexCS.test ps an s = true <->
  exists a s2, s = (a ++ s2)%string /\ RegexCS.rmatch ps an s2 = true.
Proof.
  induction s as [|c s IH]; simpl.
  - rewrite orb_false_r. split.
    + intros H. exists "", "". auto.
    + intros [a [s2 [E H]]]. destruct a; [|discriminate]. simpl in E. now subst.
  - split.
    + intros [H|H]%orb_true_iff.
      * exists "", (String c s). auto.
      * apply IH in H as [a [s2 [E H]]]. exists (String c a), s2. subst. auto.
    + intros [a [s2 [E H]]]. destruct a as [|c' a].
      * simpl in E. subst. now rewrite H.
      * inversion E; subst. apply orb_true_iff. right. apply IH. eauto.
Qed.

Lemma rmatch_cs_many_suffix a ps an s :
  RegexCS.rmatch (Regex.Many a :: ps) an s = true ->
  exists p s2, s = (p ++ s2)%string /\ RegexCS.rmatch ps an s2 = true.
Proof.
  induction s as [|c s IH].
  - rewrite rmatch_cs_many_nil. intros H. exists "", "". auto.
  - rewrite rmatch_cs_many_cons. intros [H|H]%orb_true_iff.
    + exists "", (String c s). auto.
    + apply andb_true_iff in H as [_ H]. destruct (IH H) as [p [s2 [E H2]]].
      exists (String c p), s2. subst. auto.
Qed.

Lemma test_many a ps an s :
  RegexCS.test (Regex.Many a :: ps) an s = RegexCS.test ps an s.
Proof.
  apply eq_true_iff_eq. rewrite !test_iff. split.
  - intros [p [s2 [E H]]]. destruct (rmatch_cs_many_suffix _ _ _ _ H) as [q [s3 [E2 H2]]].
    exists (p ++ q)%string, s3. subst. split; [apply str_app_assoc | exact H2].
  - intros [p [s2 [E H]]]. exists p, s2. split; [exact E|].
    destruct s2; [rewrite rmatch_cs_many_nil | rewrite rmatch_cs_many_cons]; now rewrite H.
Qed.

Lemma js_regex_source_star_ext (ext : string) :
  all_alnum ext = true ->
  js_regex_source ("*." ++ ext) = ("\.*\." ++ ext)%string.
Proof.
  intros H. unfold js_regex_source. cbn.
  rewrite !(replace_all_alnum _ _ ext); try reflexivity; exact H.
Qed.

Lemma parse_terms_escape_many (d : ascii) (s : string) :
  Regex.is_alnum d = false ->
  Regex.parse_terms (String "\" (String d (String "*" s)))
  = option_map (fun '(ps, a) => (Regex.Many (Regex.Lit d) :: ps, a)) (Regex.parse_terms s).
Proof.
  intros Hd.
  change (Regex.parse_terms (String "\" (String d (String "*" s))))
    with (if Regex.is_alnum d then None else
          if Ascii.eqb "*" "*" then
            option_map (fun '(ps, a) => (Regex.Many (Regex.Lit d) :: ps, a))
              (Regex.parse_terms s)
          else option_map (fun '(ps, a) => (Regex.One (Regex.Lit d) :: ps, a))
                 (Regex.parse_terms (String "*" s))).
  now rewrite Hd.
Qed.

Lemma parse_terms_escape_one (d q : ascii) (s : string) :
  Regex.is_alnum d = false -> Ascii.eqb q "*" = false ->
  Regex.parse_terms (String "\" (String d (String q s)))
  = option_map (fun '(ps, a) => (Regex.One (Regex.Lit d) :: ps, a))
      (Regex.parse_terms (String q s)).
Proof.
  intros Hd Hq.
  change (Regex.parse_terms (String "\" (String d (String q s))))
    with (if Regex.is_alnum d then None else
          if Ascii.eqb q "*" then
            option_map (fun '(ps, a) => (Regex.Many (Regex.Lit d) :: ps, a))
              (Regex.parse_terms s)
          else option_map (fun '(ps, a) => (Regex.One (Regex.Lit d) :: ps, a))
                 (Regex.parse_terms (String q s))).
  now rewrite Hd, Hq.
Qed.

Lemma parse_terms_dots_ext (ext : string) :
  all_alnum ext = true ->
  Regex.parse_terms ("\.*\." ++ ext)
  = Some (Regex.Many (Regex.Lit ".") :: Regex.One (Regex.Lit ".") :: lits ext, false).
Proof.
  intros H. destruct ext as [|q s3]; [reflexivity|].
  pose proof H as H'. simpl in H'. apply andb_true_iff in H' as [Hq _].
  destruct (not_syntax_alnum q Hq) as [_ [_ [_ [_ E5]]]].
  change ("\.*\." ++ String q s3)%string
    with (String "\" (String "." (String "*" (String "\" (String "." (String q s3)))))).
  rewrite parse_terms_escape_many by reflexivity.
  rewrite parse_terms_escape_one by (reflexivity || exact E5).
  rewrite (parse_terms_alnum (String q s3) H). reflexivity.
Qed.

(** The add-on's matcher is unanchored and case-sensitive, and its [*]
    only stands for a run of dots: a name matches ["*." + ext] (for an
    alphanumeric [ext]) exactly when ["." + ext] occurs anywhere in it,
    with the same case. *)
Theorem matchesPattern_js_star_ext :
  forall ext name, all_alnum ext = true ->
  matchesPattern_js name ("*." ++ ext) = Some (str_contains name ("." ++ ext)).
Proof.
  intros ext name H. unfold matchesPattern_js.
  rewrite js_regex_source_star_ext, parse_terms_dots_ext by exact H.
  f_equal. rewrite test_many.
  change (Regex.One (Regex.Lit ".") :: lits ext) with (lits ("." ++ ext)).
  apply test_lits.
Qed.

Lemma matchesPattern_js_star_ext_witness :
  all_alnum "txt" = true /\
  matchesPattern_js "notes.txt.bak" ("*." ++ "txt") = Some true /\
  matchesPattern_js "NOTES.TXT" ("*." ++ "txt") = Some false.
Proof.
  split; [reflexivity|]. split.
  - rewrite (matchesPattern_js_star_ext "txt" "notes.txt.bak" eq_refl). reflexivity.
  - rewrite (matchesPattern_js_star_ext "txt" "NOTES.TXT" eq_refl). reflexivity.
Defined.

(* ------------------------------------------------------------------ *)
(** ** [FileExaminer.searchFiles] *)

Section SearchJS.

Variable types : string -> option string.
Variable matches : string -> option bool.
Variable recursive : bool.

(** The inner [searchInDirectory(dirPath, depth)] of the add-on: no depth
    limit, and no [try]/[catch] around the recursive call, so an error
    anywhere ends the whole search. [readdir] of a non-directory or an
    unreadable directory throws. The [results] array is threaded as
    [acc]. *)
Fixpoint searchInDirectory_js (dirPath : list string) (n : node)
  (acc : list search_hit) {struct n} : list search_hit * option error :=
  match n with
  | Dir true entries =>
      (fix loop (es : list (string * node)) (acc : list search_hit)
         : list search_hit * option error :=
         match es with
         | [] => (acc, None)
         | (name, d) :: es' =>
             let entryPath := dirPath ++ [name] in
             match d with
             | File size mtime _ =>
                 match matches name with
                 | None => (acc, Some RegexError)
                 | Some false => loop es' acc
                 | Some true =>
                     loop es' (acc ++ [mkSearchHit name (render entryPath)
                                         (render dirPath) size mtime
                                         (extname_seg name)
                                         (or_unknown (lookup_name types name))])
                 end
             | Dir _ _ =>
                 if recursive then
                   match searchInDirectory_js entryPath d acc with
                   | (acc', None) => loop es' acc'
                   | (acc', Some er) => (acc', Some er)
                   end
                 else loop es' acc
             | Symlink _ => loop es' acc
             end
         end) entries acc
  | _ => (acc, Some FsError)
  end.

(** The loop over the entries of a directory, as a function of its own. *)
Fixpoint entries_js (dirPath : list string) (es : list (string * node))
  (acc : list search_hit) : list search_hit * option error :=
  match es with
  | [] => (acc, None)
  | (name, d) :: es' =>
      let entryPath := dirPath ++ [name] in
      match d with
      | File size mtime _ =>
          match matches name with
          | None => (acc, Some RegexError)
          | Some false => entries_js dirPath es' acc
          | Some true =>
              entries_js dirPath es' (acc ++ [mkSearchHit name (render entryPath)
                                  (render dirPath) size mtime
                                  (extname_seg name)
                                  (or_unknown (lookup_name types name))])
          end
      | Dir _ _ =>
          if recursive then
            match searchInDirectory_js entryPath d acc with
            | (acc', None) => entries_js dirPath es' acc'
            | (acc', Some er) => (acc', Some er)
            end
          else entries_js dirPath es' acc
      | Symlink _ => entries_js dirPath es' acc
      end
  end.

Lemma searchInDirectory_js_dir dir es acc :
  searchInDirectory_js dir (Dir true es) acc = entries_js dir es acc.
Proof.
  simpl. revert acc. induction es as [|[name d] es IH]; intros acc; [reflexivity|].
  destruct d as [s m dt|r des|t]; cbn -[searchInDirectory_js render].
  - destruct (matches name) as [[|]|]; [apply IH | apply IH | reflexivity].
  - destruct recursive; [|apply IH].
    destruct (searchInDirectory_js (dir ++ [name]) (Dir r des) acc) as [acc' [er|]];
      [reflexivity | apply IH].
  - apply IH.
Qed.

(** Height of a tree, for induction through the entries. *)
Fixpoint height (n : node) : nat :=
  match n with
  | Dir _ es =>
      S ((fix hs (es : list (string * node)) : nat :=
            match es with
            | [] => 0%nat
            | (_, d) :: es' => Nat.max (height d) (hs es')
            end) es)
  | _ => 0%nat
  end.

Lemma height_entry r es x d :
  In (x, d) es -> (height d < height (Dir r es))%nat.
Proof.
  induction es as [|[y e] es IH]; intros Hin; [destruct Hin|]. simpl in *.
  destruct Hin as [Heq|Hin].
  - inversion Heq; subst. lia.
  - specialize (IH Hin). simpl in IH. lia.
Qed.

(** The search only ever appends to [results]. *)
Lemma searchInDirectory_js_extends :
  forall k n dir acc res er, (height n < k)%nat ->
  searchInDirectory_js dir n acc = (res, er) -> exists r, res = acc ++ r.
Proof.
  induction k as [|k IHk]; intros n dir acc res er Hk Hs; [lia|].
  destruct n as [s m dt|[|] es|t];
    try (simpl in Hs; inversion Hs; exists []; symmetry; apply app_nil_r).
  rewrite searchInDirectory_js_dir in Hs.
  assert (Hl : forall es', (forall x, In x es' -> In x es) -> forall acc res er,
             entries_js dir es' acc = (res, er) -> exists r, res = acc ++ r).
  { induction es' as [|[name d] es' IHes]; intros Hincl acc0 res0 er0 H.
    - inversion H. exists []. symmetry. apply app_nil_r.
    - assert (Hin : In (name, d) es) by (apply Hincl; left; reflexivity).
      assert (Hincl' : forall x, In x es' -> In x es)
        by (intros; apply Hincl; right; assumption).
      simpl in H. destruct d as [ds dm ddt|dr des|dt].
      + destruct (matches name) as [[|]|].
        * destruct (IHes Hincl' _ _ _ H) as [r E]. rewrite <- app_assoc in E. eauto.
        * exact (IHes Hincl' _ _ _ H).
        * inversion H. exists []. symmetry. apply app_nil_r.
      + destruct recursive; [|exact (IHes Hincl' _ _ _ H)].
        destruct (searchInDirectory_js (dir ++ [name]) (Dir dr des) acc0)
          as [acc' er'] eqn:Hsub.
        assert (Hh := height_entry true es name (Dir dr des) Hin).
        destruct (IHk (Dir dr des) (dir ++ [name]) acc0 acc' er') as [r1 E1];
          [lia | exact Hsub|].
        destruct er' as [er'|].
        * inversion H; subst. eauto.
        * destruct (IHes Hincl' _ _ _ H) as [r2 E2]. rewrite E2, E1, <- app_assoc. eauto.
      + exact (IHes Hincl' _ _ _ H). }
  exact (Hl es (fun x H => H) acc res er Hs).
Qed.

(** Every matching regular file below the searched directory is found. *)
Lemma searchInDirectory_js_complete :
  forall k n dir acc res, (height n < k)%nat -> recursive = true ->
  searchInDirectory_js dir n acc = (res, None) ->
  forall ds name s m dt, reach n (ds ++ [name]) (File s m dt) ->
  matches name = Some true ->
  exists h, In h res /\ sh_name h = name /\ sh_path h = render (dir ++ ds ++ [name]).
Proof.
  induction k as [|k IHk]; intros n dir acc res Hk Hrec Hs ds name s m dt Hr Hm; [lia|].
  destruct ds as [|x ds]; simpl in Hr;
    inversion Hr as [|es y sub ds0 m0 Hin Hsub]; subst;
    rewrite searchInDirectory_js_dir in Hs.
  - (* the file is an entry of this directory *)
    inversion Hsub; subst. clear Hr Hk Hsub.
    revert acc Hs. induction es as [|[y d] es IHes]; intros acc Hs; [destruct Hin|].
    simpl in Hs. destruct Hin as [Heq|Hin].
    + inversion Heq; subst. rewrite Hm in Hs.
      destruct (searchInDirectory_js_extends (S (height (Dir true es))) (Dir true es)
                  dir _ res None ltac:(lia) (eq_trans (searchInDirectory_js_dir _ _ _) Hs))
        as [r E].
      eexists. split; [rewrite E; apply in_or_app; left; apply in_or_app; right; left;
                       reflexivity|]. split; reflexivity.
    + destruct d as [ds' dm ddt|dr des|dt'].
      * destruct (matches y) as [[|]|]; [exact (IHes Hin _ Hs) | exact (IHes Hin _ Hs) |
                                           discriminate].
      * rewrite Hrec in Hs.
        destruct (searchInDirectory_js (dir ++ [y]) (Dir dr des) acc) as [acc' [er|]];
          [discriminate | exact (IHes Hin _ Hs)].
      * exact (IHes Hin _ Hs).
  - (* the file lies below the entry [x] *)
    assert (Hh := height_entry true es x sub Hin).
    assert (Hsd : exists r des, sub = Dir r des)
      by (inversion Hsub; subst; [exfalso; destruct ds; discriminate | eauto]).
    destruct Hsd as [r [des ->]].
    assert (Hk' : (height (Dir r des) < k)%nat) by (simpl in *; lia).
    clear Hk Hh Hr. revert acc Hs.
    induction es as [|[y d] es IHes]; intros acc Hs; [destruct Hin|].
    simpl in Hs. destruct Hin as [Heq|Hin].
    + inversion Heq; subst. rewrite Hrec in Hs.
      destruct (searchInDirectory_js (dir ++ [x]) (Dir r des) acc) as [acc' [er|]] eqn:Hsd;
        [discriminate|].
      destruct (IHk (Dir r des) (dir ++ [x]) acc acc' Hk' Hrec Hsd ds name s m dt Hsub Hm)
        as [h [Hh1 [Hh2 Hh3]]].
      destruct (searchInDirectory_js_extends (S (height (Dir true es))) (Dir true es)
                  dir _ res None ltac:(lia) (eq_trans (searchInDirectory_js_dir _ _ _) Hs))
        as [r2 E].
      exists h. split; [rewrite E; apply in_or_app; left; exact Hh1|].
      split; [exact Hh2|]. rewrite Hh3. now rewrite <- app_assoc.
    + destruct d as [ds' dm ddt|dr' des'|dt'].
      * destruct (matches y) as [[|]|]; [exact (IHes Hin _ Hs) | exact (IHes Hin _ Hs) |
                                           discriminate].
      * rewrite Hrec in Hs.
        destruct (searchInDirectory_js (dir ++ [y]) (Dir dr' des') acc) as [acc' [er|]];
          [discriminate | exact (IHes Hin _ Hs)].
      * exact (IHes Hin _ Hs).
Qed.

(** An unreadable directory anywhere below makes the search fail. *)
Lemma searchInDirectory_js_unreadable :
  forall k n dir acc ds des, (height n < k)%nat -> recursive = true ->
  reach n ds (Dir false des) ->
  snd (searchInDirectory_js dir n acc) <> None.
Proof.
  induction k as [|k IHk]; intros n dir acc ds des Hk Hrec Hr; [lia|].
  inversion Hr as [n0|es x sub ds0 m0 Hin Hsub]; subst; [simpl; discriminate|].
  rewrite searchInDirectory_js_dir.
  assert (Hh := height_entry true es x sub Hin).
  assert (Hsd : exists r des', sub = Dir r des')
    by (inversion Hsub; subst; eauto).
  destruct Hsd as [r [des' ->]].
  assert (Hk' : (height (Dir r des') < k)%nat) by (simpl in *; lia).
  clear Hk Hh Hr. revert acc. induction es as [|[y d] es IHes]; intros acc; [destruct Hin|].
  simpl. destruct Hin as [Heq|Hin].
  - inversion Heq; subst. rewrite Hrec.
    destruct (searchInDirectory_js (dir ++ [x]) (Dir r des') acc) as [acc' [er|]] eqn:Hsd;
      [simpl; discriminate|].
    exfalso. apply (IHk (Dir r des') (dir ++ [x]) acc ds0 des Hk' Hrec Hsub).
    now rewrite Hsd.
  - destruct d as [ds' dm ddt|dr' des''|dt'].
    + destruct (matches y) as [[|]|]; [apply IHes; exact Hin | apply IHes; exact Hin |
                                         simpl; discriminate].
    + rewrite Hrec.
      destruct (searchInDirectory_js (dir ++ [y]) (Dir dr' des'') acc) as [acc' [er|]];
        [simpl; discriminate | apply IHes; exact Hin].
    + apply IHes; exact Hin.
Qed.

End SearchJS.

(** [FileExaminer.searchFiles(searchPath, pattern, recursive)] for a given
    outcome of the matcher and the manifest's [restricted_paths]. *)
Definition search_files_js (types : string -> option string)
  (matches : string -> option bool) (recursive : bool) (e : env)
  (restrictedPaths : list string) (search_path : string)
  : result (list search_hit) :=
  match validatePath (cwd e) restrictedPaths search_path with
  | Err er => Err er
  | Ok validatedPath =>
  match stat e validatedPath with
  | None => Err FsError
  | Some (_, n) =>
      match searchInDirectory_js types matches recursive validatedPath n [] with
      | (results, None) => Ok results
      | (_, Some er) => Err er
      end
  end end.

(** A successful recursive [searchFiles] of the add-on finds every
    regular file below the searched directory whose name matches, at any
    depth (there is no depth limit), with the path [dir/.../name]. *)
Theorem search_files_js_finds_all_depths :
  forall types matches e rs p vp rp n hits,
  validatePath (cwd e) rs p = Ok vp ->
  stat e vp = Some (rp, n) ->
  search_files_js types matches true e rs p = Ok hits ->
  forall ds name s m dt, reach n (ds ++ [name]) (File s m dt) ->
  matches name = Some true ->
  exists h, In h hits /\ sh_name h = name /\ sh_path h = render (vp ++ ds ++ [name]).
Proof.
  intros types matches e rs p vp rp n hits Hv Hs Hok ds name s m dt Hr Hm.
  unfold search_files_js in Hok. rewrite Hv, Hs in Hok.
  destruct (searchInDirectory_js types matches true vp n []) as [res [er|]] eqn:Hsd;
    [discriminate|]. inversion Hok; subst res.
  exact (searchInDirectory_js_complete types matches true (S (height n)) n vp [] hits
           ltac:(lia) eq_refl Hsd ds name s m dt Hr Hm).
Qed.

Lemma search_files_js_finds_all_depths_witness :
  exists hits,
    search_files_js mime_db (fun name => matchesPattern_js name "*.txt") true
      chain_env ["/system"] "/r" = Ok hits /\
    exists h, In h hits /\ sh_name h = "f.txt" /\
      sh_path h = render (["r"] ++ repeat "d" 15 ++ ["f.txt"]).
Proof.
  destruct (search_files_js mime_db (fun name => matchesPattern_js name "*.txt") true
              chain_env ["/system"] "/r") as [hits|er] eqn:H;
    [|vm_compute in H; discriminate].
  exists hits. split; [reflexivity|].
  apply (search_files_js_finds_all_depths mime_db (fun name => matchesPattern_js name "*.txt")
           chain_env ["/system"] "/r" ["r"] ["r"] (chain_dir 15) hits eq_refl eq_refl H
           (repeat "d" 15) "f.txt" 1 0 (Some "x")); [|reflexivity].
  simpl. repeat (eapply reach_cons; [simpl; eauto|]). apply reach_nil.
Defined.

(** A recursive [searchFiles] of the add-on fails as a whole as soon as
    an unreadable directory lies anywhere below the searched directory
    (or is the searched directory itself): the error of the inner
    [readdir] is not caught. *)
Theorem search_files_js_unreadable_fails :
  forall types matches e rs p vp rp n ds des,
  validatePath (cwd e) rs p = Ok vp ->
  stat e vp = Some (rp, n) ->
  reach n ds (Dir false des) ->
  exists er, search_files_js types matches true e rs p = Err er.
Proof.
  intros types matches e rs p vp rp n ds des Hv Hs Hr.
  unfold search_files_js. rewrite Hv, Hs.
  pose proof (searchInDirectory_js_unreadable types matches true (S (height n)) n vp []
                ds des ltac:(lia) eq_refl Hr) as H.
  destruct (searchInDirectory_js types matches true vp n []) as [res [er|]];
    [eauto | simpl in H; congruence].
Qed.

Lemma search_files_js_unreadable_fails_witness :
  exists er, search_files_js mime_db (fun name => matchesPattern_js name "*.txt") true
               locked_env ["/system"] "/top" = Err er.
Proof.
  apply (search_files_js_unreadable_fails mime_db (fun name => matchesPattern_js name "*.txt")
           locked_env ["/system"] "/top" ["top"] ["top"] _ ["locked"]
           [("hidden.txt", File 1 0 (Some "y"))] eq_refl eq_refl).
  eapply reach_cons; [simpl; eauto | apply reach_nil].
Defined.

(* ================================================================== *)
(** * [getConfig] *)

(** [String.prototype.trim] on code units below 256: the white space it
    removes there is TAB, LF, VT, FF, CR, SPACE and NO-BREAK SPACE. *)
Definition is_ws (c : ascii) : bool :=
  existsb (Nat.eqb (nat_of_ascii c)) [9; 10; 11; 12; 13; 32; 160]%nat.

Fixpoint drop_ws (l : list ascii) : list ascii :=
  match l with
  | [] => []
  | c :: l' => if is_ws c then drop_ws l' else l
  end.

Definition trim (s : string) : string :=
  string_of_list_ascii (rev (drop_ws (rev (drop_ws (list_ascii_of_string s))))).

(** [s.split(c)] for a one-character separator. *)
Fixpoint split_on_aux (sep : ascii) (s cur : string) : list string :=
  match s with
  | EmptyString => [cur]
  | String c s' =>
      if Ascii.eqb c sep then cur :: split_on_aux sep s' EmptyString
      else split_on_aux sep s' (cur ++ String c EmptyString)%string
  end.

Definition split_on (sep : ascii) (s : string) : list string :=
  split_on_aux sep s EmptyString.

(** [str.split(",").map(x => x.trim()).filter(x => x.length > 0)]. *)
Definition parse_list (s : string) : list string :=
  filter (fun x => negb (String.eqb x "")) (map trim (split_on ","%char s)).

Definition DEFAULT_RESTRICTED_PATHS : list string :=
  ["C:\Windows\System32"; "C:\Program Files"; "C:\Program Files (x86)"].

Definition DEFAULT_ALLOWED_EXTENSIONS : list string :=
  [".txt"; ".md"; ".json"; ".xml"; ".csv"; ".log";
   ".yml"; ".yaml"; ".ini"; ".cfg"; ".conf"; ".properties";
   ".js"; ".ts"; ".py"; ".java"; ".cpp"; ".c"; ".h";
   ".html"; ".css"; ".sql"; ".php"; ".rb"; ".go"; ".rs";
   ".cs"; ".vb"; ".fs"; ".csproj"; ".vbproj"; ".fsproj";
   ".sln"; ".config"; ".resx"; ".xaml"; ".razor";
   ".cshtml"; ".vbhtml"; ".aspx"; ".ascx"; ".asmx";
   ".dll"; ".exe"; ".msi"; ".nupkg";
   ".jpg"; ".jpeg"; ".png"; ".gif"; ".bmp"; ".tiff"; ".tif";
   ".webp"; ".svg"; ".ico"; ".heic"; ".heif"; ".raw";
   ".cr2"; ".nef"; ".arw"; ".dng"].

(** The values [pluginConfig.get(...)] returns for the six fields of
    [configSchematics]. *)
Record plugin_config := mkPluginConfig {
  pc_allowedExtensions : string;
  pc_maxFileSize : Z;
  pc_restrictedPaths : string;
  pc_enableImageFiles : bool;
  pc_enableDotNetFiles : bool;
  pc_enableBinaryFiles : bool }.

Definition getConfig (pc : plugin_config) : config :=
  let allowed := parse_list (pc_allowedExtensions pc) in
  let restricted := parse_list (pc_restrictedPaths pc) in
  mkConfig
    (match allowed with [] => DEFAULT_ALLOWED_EXTENSIONS | _ => allowed end)
    (match restricted with [] => DEFAULT_RESTRICTED_PATHS | _ => restricted end)
    (pc_maxFileSize pc * 1024 * 1024)%Z
    (pc_enableImageFiles pc) (pc_enableDotNetFiles pc) (pc_enableBinaryFiles pc).

(** [Array.prototype.join(",")]. *)
Fixpoint join_comma (xs : list string) : string :=
  match xs with
  | [] => EmptyString
  | [x] => x
  | x :: rest => (x ++ "," ++ join_comma rest)%string
  end.

Fixpoint has_char (c : ascii) (s : string) : bool :=
  match s with
  | EmptyString => false
  | String d s' => Ascii.eqb d c || has_char c s'
  end.

(** An entry as [getConfig] keeps it: not empty and without surrounding
    white space. *)
Definition clean_entry (x : string) : bool :=
  negb (String.eqb x "") && String.eqb (trim x) x.

(* ------------------------------------------------------------------ *)
(** ** Lemmas on [trim] and [split_on] *)

Lemma drop_ws_idem (l : list ascii) : drop_ws (drop_ws l) = drop_ws l.
Proof.
  induction l as [|c l IH]; [reflexivity|]. simpl.
  destruct (is_ws c) eqn:E; [exact IH|]. simpl. now rewrite E.
Qed.

Lemma drop_ws_suffix (l : list ascii) : exists p, l = p ++ drop_ws l.
Proof.
  induction l as [|c l [p IH]]; [exists []; reflexivity|]. simpl.
  destruct (is_ws c); [exists (c :: p); simpl; now rewrite <- IH | exists []; reflexivity].
Qed.

Lemma drop_ws_head (l r : list ascii) (c : ascii) :
  drop_ws l = c :: r -> is_ws c = false.
Proof.
  induction l as [|d l IH]; simpl; [discriminate|].
  destruct (is_ws d) eqn:E; [exact IH|]. intros H. inversion H; subst. exact E.
Qed.

Lemma trim_idem (s : string) : trim (trim s) = trim s.
Proof.
  unfold trim. rewrite list_ascii_of_string_of_list_ascii.
  set (m := drop_ws (list_ascii_of_string s)).
  set (t := rev (drop_ws (rev m))).
  assert (Ht : drop_ws t = t).
  { destruct (drop_ws_suffix (rev m)) as [p Hp].
    assert (Hm : m = t ++ rev p).
    { unfold t. rewrite <- (rev_involutive m) at 1. rewrite Hp at 1.
      now rewrite rev_app_distr. }
    destruct t as [|c t'] eqn:Et; [reflexivity|].
    assert (Hc : is_ws c = false).
    { apply (drop_ws_head (list_ascii_of_string s) (t' ++ rev p)).
      fold m. rewrite Hm. reflexivity. }
    simpl. now rewrite Hc. }
  rewrite Ht. unfold t. rewrite rev_involutive, drop_ws_idem. reflexivity.
Qed.

Lemma split_on_aux_app (sep : ascii) (s t : string) :
  has_char sep s = false ->
  forall cur, split_on_aux sep (s ++ t) cur = split_on_aux sep t (cur ++ s).
Proof.
  induction s as [|c s IH]; intros Hs cur; simpl.
  - now rewrite str_app_nil_r.
  - simpl in Hs. apply orb_false_iff in Hs as [Hc Hs].
    rewrite Hc, IH by exact Hs. now rewrite <- str_app_assoc.
Qed.

Lemma split_join_comma (xs : list string) :
  xs <> [] -> Forall (fun x => has_char ","%char x = false) xs ->
  split_on ","%char (join_comma xs) = xs.
Proof.
  unfold split_on.
  induction xs as [|x xs IH]; intros Hne Hs; [congruence|].
  inversion Hs as [|? ? Hx Hxs]; subst.
  destruct xs as [|x2 xs].
  - simpl. rewrite <- (str_app_nil_r x) at 1.
    rewrite split_on_aux_app by exact Hx. reflexivity.
  - change (join_comma (x :: x2 :: xs)) with (x ++ "," ++ join_comma (x2 :: xs))%string.
    rewrite split_on_aux_app by exact Hx. simpl.
    f_equal. apply IH; [discriminate | exact Hxs].
Qed.

Lemma parse_list_clean (s : string) : forallb clean_entry (parse_list s) = true.
Proof.
  unfold parse_list. apply forallb_forall. intros x Hx.
  apply filter_In in Hx as [Hx Hne]. apply in_map_iff in Hx as [y [<- _]].
  unfold clean_entry. rewrite Hne, trim_idem. simpl. apply String.eqb_refl.
Qed.

Lemma parse_list_join (xs : list string) :
  xs <> [] -> forallb clean_entry xs = true ->
  Forall (fun x => has_char ","%char x = false) xs ->
  parse_list (join_comma xs) = xs.
Proof.
  intros Hne Hc Hs. unfold parse_list. rewrite split_join_comma by assumption.
  clear Hne Hs. induction xs as [|x xs IH]; [reflexivity|].
  simpl in Hc. apply andb_true_iff in Hc as [Hx Hxs].
  unfold clean_entry in Hx. apply andb_true_iff in Hx as [Hx1 Hx2].
  apply String.eqb_eq in Hx2. simpl. rewrite Hx2, Hx1. simpl. now rewrite IH.
Qed.

(** The allowed-extension and restricted-path lists [getConfig] returns
    are never empty, and each of their entries is a non-empty string
    without surrounding white space; a field holding no such entry (empty,
    blank, or only commas) falls back to the built-in default list. *)
Theorem getConfig_lists_clean :
  forall pc,
  let cfg := getConfig pc in
  allowedExtensions cfg <> [] /\ forallb clean_entry (allowedExtensions cfg) = true /\
  restrictedPaths cfg <> [] /\ forallb clean_entry (restrictedPaths cfg) = true /\
  (parse_list (pc_allowedExtensions pc) = [] ->
   allowedExtensions cfg = DEFAULT_ALLOWED_EXTENSIONS) /\
  (parse_list (pc_restrictedPaths pc) = [] ->
   restrictedPaths cfg = DEFAULT_RESTRICTED_PATHS).
Proof.
  intros pc. cbv zeta. unfold getConfig. simpl.
  pose proof (parse_list_clean (pc_allowedExtensions pc)) as Ha.
  pose proof (parse_list_clean (pc_restrictedPaths pc)) as Hr.
  destruct (parse_list (pc_allowedExtensions pc)) as [|a al];
  destruct (parse_list (pc_restrictedPaths pc)) as [|r rl];
  repeat split; try discriminate; try assumption; try reflexivity;
  try (intros H; discriminate H); vm_compute; reflexivity.
Qed.

(** Writing a list of clean, comma-free entries into either list field as
    a comma-separated string makes [getConfig] return exactly that list
    for that field, whatever the other fields hold. *)
Theorem getConfig_join_roundtrip :
  (forall pc xs,
     xs <> [] -> forallb clean_entry xs = true ->
     Forall (fun x => has_char ","%char x = false) xs ->
     pc_allowedExtensions pc = join_comma xs ->
     allowedExtensions (getConfig pc) = xs) /\
  (forall pc rs,
     rs <> [] -> forallb clean_entry rs = true ->
     Forall (fun x => has_char ","%char x = false) rs ->
     pc_restrictedPaths pc = join_comma rs ->
     restrictedPaths (getConfig pc) = rs).
Proof.
  split.
  - intros pc xs Hx1 Hx2 Hx3 Ha. unfold getConfig. simpl.
    rewrite Ha, parse_list_join by assumption.
    destruct xs; [congruence | reflexivity].
  - intros pc rs Hr1 Hr2 Hr3 Hr. unfold getConfig. simpl.
    rewrite Hr, parse_list_join by assumption.
    destruct rs; [congruence | reflexivity].
Qed.

Lemma getConfig_join_roundtrip_witness :
  allowedExtensions (getConfig (mkPluginConfig ".txt,.md" 10 " " true true true))
    = [".txt"; ".md"] /\
  restrictedPaths (getConfig (mkPluginConfig "" 10 "/etc,/root" true true true))
    = ["/etc"; "/root"].
Proof.
  split.
  - apply (proj1 getConfig_join_roundtrip
             (mkPluginConfig ".txt,.md" 10 " " true true true) [".txt"; ".md"]);
      try discriminate; try reflexivity; repeat constructor.
  - apply (proj2 getConfig_join_roundtrip
             (mkPluginConfig "" 10 "/etc,/root" true true true) ["/etc"; "/root"]);
      try discriminate; try reflexivity; repeat constructor.
Defined.

(* ------------------------------------------------------------------ *)
(** ** Allowlist entries are compared as written *)

Lemma lower_char_idem (c : ascii) : lower_char (lower_char c) = lower_char c.
Proof. destruct c as [[] [] [] [] [] [] [] []]; vm_compute; reflexivity. Qed.

Lemma toLowerCase_idem (s : string) : toLowerCase (toLowerCase s) = toLowerCase s.
Proof. induction s as [|c s IH]; simpl; [reflexivity|]. now rewrite lower_char_idem, IH. Qed.

(** [validateExtension] lowercases the file's extension but not the
    allowlist: a file passes only through an entry that is its own
    lowercase form, so an entry written with an uppercase letter (say
    [".TXT"] in the configuration string) never admits any file. *)
Theorem validateExtension_needs_lowercase_entry :
  forall cfg vp, validateExtension cfg vp = Ok tt ->
  exists x, In x (allowedExtensions cfg) /\ x = toLowerCase (extname vp) /\
    toLowerCase x = x.
Proof.
  intros cfg vp H. unfold validateExtension in H. cbv zeta in H.
  destruct (includes (allowedExtensions cfg) (toLowerCase (extname vp))) eqn:Hi;
    [|discriminate].
  unfold includes in Hi. apply existsb_exists in Hi as [x [Hx Heq]].
  apply String.eqb_eq in Heq. exists x. split; [exact Hx|]. split; [symmetry; exact Heq|].
  rewrite <- Heq. apply toLowerCase_idem.
Qed.

Lemma validateExtension_needs_lowercase_entry_witness :
  validateExtension demo_config ["a.TXT"] = Ok tt /\
  exists x, In x (allowedExtensions demo_config) /\ x = toLowerCase (extname ["a.TXT"]) /\
    toLowerCase x = x.
Proof.
  split; [reflexivity|].
  exact (validateExtension_needs_lowercase_entry demo_config ["a.TXT"] eq_refl).
Defined.

Lemma getConfig_lists_clean_witness :
  let cfg := getConfig (mkPluginConfig " , ," 10 "" true true true) in
  allowedExtensions cfg <> [] /\ forallb clean_entry (allowedExtensions cfg) = true /\
  restrictedPaths cfg <> [] /\ forallb clean_entry (restrictedPaths cfg) = true /\
  (parse_list " , ," = [] -> allowedExtensions cfg = DEFAULT_ALLOWED_EXTENSIONS) /\
  (parse_list "" = [] -> restrictedPaths cfg = DEFAULT_RESTRICTED_PATHS).
Proof. exact (getConfig_lists_clean (mkPluginConfig " , ," 10 "" true true true)). Defined.

(* ================================================================== *)
(** * The first tool module (fixed lists, no configuration) *)

(** [RESTRICTED_PATHS], [ALLOWED_EXTENSIONS] and [MAX_FILE_SIZE] of the
    first [fileExaminerTools] module of src/unnamed/part_003. *)
Definition RESTRICTED_PATHS : list string :=
  ["C:\Windows\System32"; "C:\Program Files"; "C:\Program Files (x86)"].

Definition ALLOWED_EXTENSIONS : list string :=
  [".txt"; ".md"; ".json"; ".xml"; ".csv"; ".log";
   ".js"; ".ts"; ".py"; ".java"; ".cpp"; ".c"; ".h";
   ".html"; ".css"; ".sql"; ".yml"; ".yaml"; ".ini";
   ".cfg"; ".conf"; ".properties"].

Definition MAX_FILE_SIZE : Z := (10 * 1024 * 1024)%Z.

(** [validateExtension(filePath)] of the first module. *)
Definition validateExtension_fixed (filePath : list string) : result unit :=
  let ext := toLowerCase (extname filePath) in
  if (0 <? length ALLOWED_EXTENSIONS)%nat && negb (includes ALLOWED_EXTENSIONS ext)
  then Err (FileTypeNotAllowed ext)
  else Ok tt.

(** The object returned by the first module's [read_file];
    [sizeFormatted] left out. *)
Record fixed_read_data := mkFixedReadData {
  fr_content : string;
  fr_path : string;
  fr_size : Z;
  fr_encoding : string;
  fr_mimeType : string;
  fr_lastModified : Z }.

(** [readFileTool.implementation({ file_path, encoding })] of the first
    module: no binary branch. *)
Definition read_file_fixed (types : string -> option string) (e : env)
  (file_path encoding : string) : result fixed_read_data :=
  match validatePath (cwd e) RESTRICTED_PATHS file_path with
  | Err er => Err er
  | Ok validatedPath =>
  match validateExtension_fixed validatedPath with
  | Err er => Err er
  | Ok _ =>
  match stat e validatedPath with
  | None => Err FsError
  | Some (_, n) =>
  match n with
  | File size mtime data =>
      if (size >? MAX_FILE_SIZE)%Z then Err (FileTooLarge size MAX_FILE_SIZE)
      else if encoding_ok encoding then
        match data with
        | Some content =>
            Ok (mkFixedReadData content (render validatedPath) size encoding
                  (or_unknown (lookup_path types validatedPath)) mtime)
        | None => Err FsError
        end
      else Err FsError
  | _ => Err NotAFile
  end end end end.

Lemma toLowerCase_render (segs : list string) :
  toLowerCase (render segs) = String "/" (toLowerCase (join_segs segs)).
Proof. reflexivity. Qed.

(** The built-in restricted lists (the first module's [RESTRICTED_PATHS]
    and the second module's [DEFAULT_RESTRICTED_PATHS]) only name Windows
    drive paths: they never deny a path resolved on a POSIX system, which
    always begins with ["/"]. *)
Theorem builtin_restrictions_never_deny_posix :
  forall cwd p,
  validatePath cwd RESTRICTED_PATHS p = Ok (resolve cwd p) /\
  validatePath cwd DEFAULT_RESTRICTED_PATHS p = Ok (resolve cwd p).
Proof.
  intros cwd p. unfold validatePath, restricted_hit.
  rewrite toLowerCase_render. split; reflexivity.
Qed.

(** The first module's [read_file] hands back the contents of every
    regular file of an allowlisted extension, up to 10 MiB, that the
    process may read, read with an encoding [fs.readFile] accepts: it has
    no binary answer, so JSON or XML files, which the configurable module
    answers with the placeholder, come back with their contents. *)
Theorem read_file_fixed_returns_data :
  forall types e p enc rp size mtime content,
  let vp := resolve (cwd e) p in
  includes ALLOWED_EXTENSIONS (toLowerCase (extname vp)) = true ->
  stat e vp = Some (rp, File size mtime (Some content)) ->
  (size <= MAX_FILE_SIZE)%Z ->
  encoding_ok enc = true ->
  read_file_fixed types e p enc
  = Ok (mkFixedReadData content (render vp) size enc
          (or_unknown (lookup_path types vp)) mtime).
Proof.
  intros types e p enc rp size mtime content vp Hext Hs Hsz Henc.
  unfold read_file_fixed.
  rewrite (proj1 (builtin_restrictions_never_deny_posix (cwd e) p)). fold vp.
  unfold validateExtension_fixed. cbv zeta. rewrite Hext. simpl.
  rewrite Hs.
  replace (size >? MAX_FILE_SIZE)%Z with false
    by (symmetry; rewrite Z.gtb_ltb; apply Z.ltb_ge; exact Hsz).
  now rewrite Henc.
Qed.

Lemma read_file_fixed_returns_data_witness :
  includes ALLOWED_EXTENSIONS (toLowerCase (extname (resolve [] "/data.json"))) = true /\
  read_file_fixed mime_db json_env "/data.json" "utf8"
  = Ok (mkFixedReadData "[1,2]" "/data.json" 5 "utf8" "application/json" 3) /\
  read_file mime_db json_env demo_config "/data.json" "utf8"
  = Ok (mkReadData true binary_placeholder "/data.json" 5 "application/json" 3 None
          (Some ".json")).
Proof.
  split; [reflexivity|]. split; [|reflexivity].
  apply (read_file_fixed_returns_data mime_db json_env "/data.json" "utf8" ["data.json"]
           5 3 "[1,2]");
    [reflexivity | reflexivity | unfold MAX_FILE_SIZE; lia | reflexivity].
Defined.
